(** * Verification of the infinitiV scene pipeline

    Shallow embedding of the parts of [agents/script_generator.py],
    [agents/scene_renderer.py], [agents/voice_generator.py] and [app.py]
    that assemble, voice, name and compile a scene, with the properties of
    the pipeline's spec and further properties of the same code. *)

From Stdlib Require Import Ascii Init.Byte.
From stdpp Require Import base list gmap strings pretty.

Local Open Scope string_scope.
Local Open Scope list_scope.

Infix "+:+" := String.append (at level 60, right associativity).

(** ** Block model: the JSON dicts passed between the stages. *)

(** The [traits] sub-dict of a dialogue block. A key that is absent is [None]. *)
Record traits := mk_traits {
  age_range : option string;
  gender : option string;
  voice_style : option string;
  accent : option string;
  elevenlabs_voice_id : option string
}.

Definition no_traits : traits := mk_traits None None None None None.

(** A script block. The keys the pipeline reads; [None] = key absent.
    [b_sound] is [environmental_impact.sound_implications]. *)
Record block := mk_block {
  b_id : option string;
  b_type : option string;
  b_character : option string;
  b_text : option string;
  b_emotion : option string;
  b_traits : traits;
  b_setting : option string;
  b_description : option string;
  b_sound : list string;
  b_audio : option string
}.

(** [d.get(k, default)] *)
Definition get_or (o : option string) (dflt : string) : string :=
  match o with Some s => s | None => dflt end.

(** Python truthiness of [d.get(k)] for a string value. *)
Definition truthy (o : option string) : bool :=
  match o with Some s => negb (bool_decide (s = "")) | None => false end.


Definition set_id (b : block) (i : string) : block :=
  mk_block (Some i) (b_type b) (b_character b) (b_text b) (b_emotion b)
    (b_traits b) (b_setting b) (b_description b) (b_sound b) (b_audio b).

(** ** Timeline assembler: [ScriptGenerator._structure_as_json] *)
Module Assembler.

Record scene_plan := mk_plan {
  plan_setting : option string;
  plan_tone : option string
}.

(** The leading [scene_start] block. *)
Definition scene_block (p : scene_plan) : block :=
  mk_block (Some "scene_start") (Some "scene") None None None no_traits
    (Some (get_or (plan_setting p) "Unknown location"))
    (Some ("Scene begins in " +:+ get_or (plan_setting p) "a location"
           +:+ " with a " +:+ get_or (plan_tone p) "neutral" +:+ " atmosphere."))
    [] None.

Section Interleave.
Variables (dialogue actions : list block).

(** One iteration of [for i in range(max_items * 2)] with the loop state
    [(action_index, dialogue_index, structured_script)]. *)
Definition interleave_step (i : nat) (st : nat * nat * list block)
  : nat * nat * list block :=
  let '(ai, di, acc) := st in
  let '(ai, acc) :=
    if (Nat.ltb ai (length actions)) && Nat.even i then
      match actions !! ai with
      | Some a => (S ai, acc ++ [a])
      | None => (ai, acc)
      end
    else (ai, acc) in
  if Nat.ltb di (length dialogue) then
    match dialogue !! di with
    | Some d => (ai, S di, acc ++ [d])
    | None => (ai, di, acc)
    end
  else (ai, di, acc).

(** Iterations [i, i+1, ..., i+k-1]. *)
Fixpoint interleave_loop (k i : nat) (st : nat * nat * list block)
  : nat * nat * list block :=
  match k with
  | 0 => st
  | S k' => interleave_loop k' (S i) (interleave_step i st)
  end.

End Interleave.

(** [for i, block in enumerate(structured_script):
       if not block.get('id'): block['id'] = f"block_{i}"] *)
Definition fill_id (i : nat) (b : block) : block :=
  if truthy (b_id b) then b else set_id b ("block_" +:+ pretty i).

Definition fill_ids (l : list block) : list block := imap fill_id l.

Definition structure_as_json (dialogue actions : list block) (p : scene_plan)
  : list block :=
  let max_items := Nat.max (length dialogue) (length actions) in
  let '(ai, di, acc) :=
    interleave_loop dialogue actions (max_items * 2) 0 (0, 0, [scene_block p]) in
  (* the two [while] loops appending the remaining items *)
  let acc := acc ++ drop ai actions in
  let acc := acc ++ drop di dialogue in
  fill_ids acc.

(** Stable interleavings of two lists. *)
Inductive interleaving {A} : list A -> list A -> list A -> Prop :=
  | il_nil : interleaving [] [] []
  | il_left x l1 l2 l : interleaving l1 l2 l -> interleaving (x :: l1) l2 (x :: l)
  | il_right x l1 l2 l : interleaving l1 l2 l -> interleaving l1 (x :: l2) (x :: l).

(** The round-robin schedule of the spec (second definition, from the spec's
    words, to compare with [structure_as_json]): A[k] then D[k] for every
    round, leftovers of the longer stream afterwards. *)
Fixpoint round_robin (dialogue actions : list block) : list block :=
  match actions, dialogue with
  | a :: actions', d :: dialogue' => a :: d :: round_robin dialogue' actions'
  | [], _ => dialogue
  | _, [] => actions
  end.

End Assembler.

(** ** String helpers for the Python string methods the code uses *)
Module Str.

Definition nl : string := String (ascii_of_nat 10) EmptyString.
Definition dq : string := String (ascii_of_nat 34) EmptyString.

Definition is_digit (c : ascii) : bool :=
  let n := nat_of_ascii c in Nat.leb 48 n && Nat.leb n 57.
Definition is_upper (c : ascii) : bool :=
  let n := nat_of_ascii c in Nat.leb 65 n && Nat.leb n 90.
Definition is_lower (c : ascii) : bool :=
  let n := nat_of_ascii c in Nat.leb 97 n && Nat.leb n 122.
(** [str.isalnum] on one (ASCII) character *)
Definition is_alnum (c : ascii) : bool := is_digit c || is_upper c || is_lower c.
Definition lower_char (c : ascii) : ascii :=
  if is_upper c then ascii_of_nat (nat_of_ascii c + 32) else c.

Fixpoint map_chars (f : ascii -> ascii) (s : string) : string :=
  match s with
  | EmptyString => EmptyString
  | String c s' => String (f c) (map_chars f s')
  end.

(** [str.lower] *)
Definition lower (s : string) : string := map_chars lower_char s.

(** [s.split(sep)] for a one-character separator *)
Fixpoint split_on (sep : ascii) (s : string) : list string :=
  match s with
  | EmptyString => [EmptyString]
  | String c s' =>
      if Ascii.eqb c sep then EmptyString :: split_on sep s'
      else match split_on sep s' with
           | w :: ws => String c w :: ws
           | [] => [String c EmptyString]
           end
  end.

(** [needle in hay] *)
Fixpoint contains (needle hay : string) : bool :=
  String.prefix needle hay ||
  match hay with
  | EmptyString => false
  | String _ hay' => contains needle hay'
  end.

(** [os.path.basename]: the part after the last [/]. *)
Definition basename (path : string) : string :=
  List.last (split_on "/"%char path) EmptyString.

(** [all(p(c) for c in s)] *)
Fixpoint all_chars (p : ascii -> bool) (s : string) : bool :=
  match s with
  | EmptyString => true
  | String c s' => p c && all_chars p s'
  end.

(** A character of the ASCII range, where [str.isalnum], [str.lower] and
    [str.isspace] agree with the definitions above. *)
Definition is_ascii (c : ascii) : bool := Nat.ltb (nat_of_ascii c) 128.

(** [\s] and [str.isspace] on an ASCII character: [\t\n\v\f\r], the
    separators [\x1c]-[\x1f] and the space. *)
Definition is_space (c : ascii) : bool :=
  let n := nat_of_ascii c in
  (Nat.leb 9 n && Nat.leb n 13) || (Nat.leb 28 n && Nat.leb n 32).

(** [\w] on an ASCII character, and [c.isalnum() or c == "_"] *)
Definition is_word (c : ascii) : bool := is_alnum c || Ascii.eqb c "_".

(** [''.join(c for c in s if p(c))], and [re.sub(r'[^...]', '', s)] *)
Fixpoint filter_chars (p : ascii -> bool) (s : string) : string :=
  match s with
  | EmptyString => EmptyString
  | String c s' => if p c then String c (filter_chars p s') else filter_chars p s'
  end.

(** [re.split(r'\s', s)]: the pieces between single whitespace characters. *)
Fixpoint split_ws_raw (s : string) : list string :=
  match s with
  | EmptyString => [EmptyString]
  | String c s' =>
      if is_space c then EmptyString :: split_ws_raw s'
      else match split_ws_raw s' with
           | w :: ws => String c w :: ws
           | [] => [String c EmptyString]
           end
  end.

(** [s.split()]: the non-empty pieces. *)
Definition split_ws (s : string) : list string :=
  filter (fun w => negb (bool_decide (w = ""))) (split_ws_raw s).

(** [s.lstrip()] *)
Fixpoint lstrip_ws (s : string) : string :=
  match s with
  | EmptyString => EmptyString
  | String c s' => if is_space c then lstrip_ws s' else s
  end.

(** [s.rstrip()] *)
Fixpoint rstrip_ws (s : string) : string :=
  match s with
  | EmptyString => EmptyString
  | String c s' =>
      let r := rstrip_ws s' in
      if is_space c && bool_decide (r = "") then EmptyString else String c r
  end.

(** [s.strip()] *)
Definition strip_ws (s : string) : string := rstrip_ws (lstrip_ws s).

(** [s.lstrip(' ')] *)
Fixpoint lstrip_spaces (s : string) : string :=
  match s with
  | String " "%char s' => lstrip_spaces s'
  | _ => s
  end.

End Str.

(** ** Scene compiler: [SceneRenderer._generate_renpy_script] *)
Module Compiler.
Import Str.

(** [SceneRenderer._sanitize_name] *)
Definition sanitize_name (raw : string) : string :=
  let clean := map_chars (fun ch => if is_alnum ch then lower_char ch else "_"%char) raw in
  let clean := String.concat "_" (filter (fun w => negb (bool_decide (w = ""))) (split_on "_"%char clean)) in
  let clean := match clean with
               | String c _ => if is_digit c then "_" +:+ clean else clean
               | EmptyString => clean
               end in
  if bool_decide (clean = "") then "unknown" else clean.

(** [f'char_{self._sanitize_name(name)}'] *)
Definition char_var (name : string) : string := "char_" +:+ sanitize_name name.

(** [list(dict.fromkeys(characters))]: first occurrences, in order. *)
Fixpoint dedup_keep_first (seen : list string) (l : list string) : list string :=
  match l with
  | [] => []
  | x :: l' =>
      if bool_decide (x ∈ seen) then dedup_keep_first seen l'
      else x :: dedup_keep_first (x :: seen) l'
  end.

Definition is_type (t : string) (b : block) : bool :=
  bool_decide (b_type b = Some t).

(** [[blk["character"] for blk in script if blk.get("type") == "dialogue"]];
    [None] when a dialogue block has no [character] key ([KeyError]). *)
Fixpoint dialogue_characters (script : list block) : option (list string) :=
  match script with
  | [] => Some []
  | b :: script' =>
      if is_type "dialogue" b then
        match b_character b, dialogue_characters script' with
        | Some c, Some cs => Some (c :: cs)
        | _, _ => None
        end
      else dialogue_characters script'
  end.

(** [char_var_for_name.get(char, "")] *)
Definition var_for (unique_chars : list string) (char : string) : string :=
  if bool_decide (char ∈ unique_chars) then char_var char else "".

Definition colour_for (orig_name : string) : string :=
  if bool_decide (orig_name = "Character A") then "#66b3ff"
  else if bool_decide (orig_name = "Character B") then "#ff6b6b"
  else if bool_decide (orig_name = "Detective") then "#4ecdc4"
  else if bool_decide (orig_name = "Suspect") then "#ffe66d"
  else "#66b3ff".

(** [pos = "left" if "a" in var else "right"] *)
Definition entrance_position (var : string) : string :=
  if contains "a" var then "left" else "right".

Definition header_lines (bg_images : list (string * string))
    (unique_chars : list string) : list string :=
  [ "# ∞-V Generated Scene Script";
    "# This script was automatically generated by Infiniti-V";
    "";
    "# Background images";
    "image bg background = " +:+ dq +:+ "images/backgrounds/background.png" +:+ dq ]
  ++ map (fun '(bg_key, bg_file) =>
            "image bg " +:+ bg_key +:+ " = " +:+ dq +:+ "images/backgrounds/" +:+ bg_file +:+ dq)
         bg_images
  ++ [""; "# Character images - neutral pose"]
  ++ map (fun name => let var := char_var name in
            "image " +:+ var +:+ " = " +:+ dq +:+ "images/characters/" +:+ var +:+ "_neutral.png" +:+ dq)
         unique_chars
  ++ [""; "# Define transforms for character movement and positioning";
      "transform left:" +:+ nl +:+ "    xalign 0.3" +:+ nl +:+ "    yalign 1.0";
      "transform right:" +:+ nl +:+ "   xalign 0.7" +:+ nl +:+ "    yalign 1.0";
      "transform center:" +:+ nl +:+ "    xalign 0.5" +:+ nl +:+ "    yalign 1.0";
      "";
      "transform appear:" +:+ nl +:+ "  alpha 0.0" +:+ nl +:+ "    ease 1.0" +:+ nl +:+ "    alpha 1.0";
      "transform focus:" +:+ nl +:+ "   zoom 1.1" +:+ nl +:+ "    ease 0.5" +:+ nl +:+ "    alpha 1.0";
      "transform unfocus:" +:+ nl +:+ "   ease 0.5" +:+ nl +:+ "    zoom 1.0";
      "";
      "# Sound effects";
      "define audio.rain      = " +:+ dq +:+ "audio/sfx_rain.mp3" +:+ dq;
      "define audio.footsteps = " +:+ dq +:+ "audio/sfx_footsteps.mp3" +:+ dq;
      "define audio.door      = " +:+ dq +:+ "audio/sfx_door.mp3" +:+ dq;
      "define audio.ambient   = " +:+ dq +:+ "audio/sfx_ambient.mp3" +:+ dq;
      "";
      "# Define characters"]
  ++ map (fun name =>
            "define " +:+ char_var name +:+ " = Character(" +:+ dq +:+ name +:+ dq
            +:+ ", color=" +:+ dq +:+ colour_for name +:+ dq +:+ ")")
         unique_chars
  ++ [""; "# Main scene"; "label start:";
      "    # Scene: Unknown location";
      "    # Scene begins in Unknown location with a neutral atmosphere.";
      "    scene bg background"; "    with fade"; ""].

(** One iteration of [for blk in script] with the set [shown]: the lines
    appended to [out] and the new [shown]. *)
Definition block_lines (unique_chars : list string) (audio_files : gmap string string)
    (shown : list string) (blk : block) : list string * list string :=
  let btype := get_or (b_type blk) "" in
  let bid := get_or (b_id blk) "" in
  let char := get_or (b_character blk) "" in
  let text := get_or (b_text blk) "" in
  let var := var_for unique_chars char in
  if bool_decide (btype = "environment") then
    let desc := get_or (b_description blk) "" in
    (["    # Environment: " +:+ desc;
      "    " +:+ dq +:+ "The camera slowly pans across the " +:+ lower desc +:+ "." +:+ dq +:+ nl],
     shown)
  else if bool_decide (btype = "movement") then
    let desc := get_or (b_description blk) "" in
    (["    # Movement: " +:+ desc], shown)
  else if negb (bool_decide (btype = "dialogue")) then ([], shown)
  else
    let '(entrance, shown) :=
      if negb (bool_decide (var = "")) && negb (bool_decide (var ∈ shown)) then
        let pos := entrance_position var in
        (["    # Show " +:+ char +:+ " on the " +:+ pos;
          "    show " +:+ var +:+ " at " +:+ pos +:+ ", appear";
          ""], var :: shown)
      else ([], shown) in
    let voice :=
      match audio_files !! bid with
      | Some path => ["    voice " +:+ dq +:+ "audio/" +:+ basename path +:+ dq]
      | None => []
      end in
    (entrance ++ voice ++ ["    " +:+ var +:+ " " +:+ dq +:+ text +:+ dq +:+ nl], shown).

Fixpoint body_lines (unique_chars : list string) (audio_files : gmap string string)
    (shown : list string) (script : list block) : list string :=
  match script with
  | [] => []
  | blk :: script' =>
      let '(ls, shown') := block_lines unique_chars audio_files shown blk in
      ls ++ body_lines unique_chars audio_files shown' script'
  end.

Definition footer_lines : list string :=
  [ "    # Scene complete";
    "    " +:+ dq +:+ "Scene complete! Thank you for watching this ∞-V generated scene." +:+ dq;
    "    return";
    "" ].

(** The list [out]; [None] when the code raises ([KeyError] on a dialogue
    block without [character]). [bg_images] is [image_info["background_images"]]. *)
Definition generate_renpy_lines (script : list block) (audio_files : gmap string string)
    (bg_images : list (string * string)) : option (list string) :=
  match dialogue_characters script with
  | None => None
  | Some characters =>
      let unique_chars := dedup_keep_first [] characters in
      Some (header_lines bg_images unique_chars
            ++ body_lines unique_chars audio_files [] script
            ++ footer_lines)
  end.

(** [return "\n".join(out)] *)
Definition generate_renpy_script (script : list block) (audio_files : gmap string string)
    (bg_images : list (string * string)) : option string :=
  option_map (String.concat nl) (generate_renpy_lines script audio_files bg_images).

(** A Ren'Py sound-cue instruction ([play sound ...], [play audio ...]). *)
Definition is_play_instruction (line : string) : bool :=
  String.prefix "play " (lstrip_spaces line).

End Compiler.

(** ** Voice stage: [agents/voice_generator.py] *)
Module Voice.
Import Str.

(** [VoiceGenerator] fields that live across calls: [self.voice_cache]
    (keyed both by character name and by voice description) and the
    number of creation requests sent to the voice service so far. *)
Record vstate := mk_vstate {
  voice_cache : gmap string string;
  create_requests : nat
}.

(** File contents: bytes written with ["wb"], text written with ["w"]. *)
Inductive contents := Bytes (bs : list byte) | Text (s : string).

Definition nonempty (c : contents) : Prop :=
  match c with Bytes bs => bs <> [] | Text s => s <> "" end.

(** [_build_voice_description] *)
Definition build_voice_description (t : traits) (emotion : string) : string :=
  let opt (o : option string) (suffix : string) :=
    if truthy o then [get_or o "" +:+ suffix] else [] in
  let parts := opt (age_range t) "" ++ opt (gender t) "" ++ opt (voice_style t) ""
    ++ opt (accent t) " accent"
    ++ (if truthy (Some emotion) && negb (bool_decide (emotion = "neutral"))
        then [emotion +:+ " tone"] else []) in
  let parts := match parts with [] => ["adult"; "neutral"; "clear"] | _ => parts end in
  "A " +:+ String.concat ", " parts +:+ " voice.".

(** [_get_fallback_voice_id] *)
Definition fallback_voice_id (t : traits) : string :=
  let g := lower (get_or (gender t) "neutral") in
  if bool_decide (g = "male") then "pNInz6obpgDQGcFmaJgB"
  else if bool_decide (g = "female") then "21m00Tcm4TlvDq8ikWAM"
  else "21m00Tcm4TlvDq8ikWAM".

(** [os.path.join(a, b)] (POSIX) *)
Definition path_join (a b : string) : string :=
  if String.prefix "/" b then b
  else if bool_decide (a = "") then b
  else if bool_decide (String.substring (String.length a - 1) 1 a = "/") then a +:+ b
  else a +:+ "/" +:+ b.

(** [s[n:]] *)
Fixpoint str_drop (n : nat) (s : string) : string :=
  match n, s with
  | 0, _ => s
  | S n', String _ s' => str_drop n' s'
  | S _, EmptyString => EmptyString
  end.

(** [s.replace(old, new)] for a non-empty [old]: every occurrence, left to
    right. The fuel is [length s]. *)
Fixpoint replace_go (fuel : nat) (old new s : string) : string :=
  match fuel with
  | 0 => s
  | S fuel' =>
      if String.prefix old s then
        new +:+ replace_go fuel' old new (str_drop (String.length old) s)
      else match s with
           | EmptyString => EmptyString
           | String c s' => String c (replace_go fuel' old new s')
           end
  end.
Definition replace (old new s : string) : string :=
  replace_go (String.length s) old new s.

(** Whitespace for [str.strip] (ASCII part). *)
Definition is_space (c : ascii) : bool :=
  let n := nat_of_ascii c in
  (Nat.leb 9 n && Nat.leb n 13) || (Nat.leb 28 n && Nat.leb n 32).
Fixpoint all_space (s : string) : bool :=
  match s with EmptyString => true | String c s' => is_space c && all_space s' end.
(** [not text.strip()] *)
Definition is_blank (text : string) : bool := all_space text.

(** The silent MP3 of [_create_mp3_file]: a 16-byte header then 1 KB of zeros. *)
Definition mp3_header : list byte :=
  [xff; xfb; x90; x00; x00; x00; x00; x00; x00; x00; x00; x00; x00; x00; x00; x00].
Definition placeholder_mp3 : list byte := mp3_header ++ repeat x00 1024.

Definition metadata_text (character text block_id audio_filename : string) : string :=
  "Character: " +:+ character +:+ nl +:+ "Text: " +:+ text +:+ nl
  +:+ "Block ID: " +:+ block_id +:+ nl +:+ "Audio File: " +:+ audio_filename +:+ nl.

Section Voice.
(** The environment of the voice stage:
    - [has_client]: [self.elevenlabs_client] is set;
    - [collab k description name]: the answer to the [k]-th creation request
      ([create_previews] then [create_voice_from_preview]); [None] when the
      service raises;
    - [synth text voice_id]: the audio bytes of a [200] answer of the
      text-to-speech endpoint, [None] for any failure or a missing key;
    - [io_ok path]: creating or writing [path] succeeds ([OSError] otherwise). *)
Variable has_client : bool.
Variable collab : nat -> string -> string -> option string.
Variable synth : string -> string -> option (list byte).
Variable io_ok : string -> bool.

(** [_create_voice_from_description] *)
Definition create_voice_from_description (st : vstate) (description name : string)
  : option string * vstate :=
  match voice_cache st !! description with
  | Some v => (Some v, st)
  | None =>
      let k := create_requests st in
      match collab k description name with
      | Some v => (Some v, mk_vstate (<[description := v]> (voice_cache st)) (S k))
      | None => (None, mk_vstate (voice_cache st) (S k))
      end
  end.

(** [_get_or_create_voice_for_character]: the handle, the new state and the
    new session map [character_voice_map]. *)
Definition get_or_create_voice (st : vstate) (character : string) (t : traits)
    (emotion : string) (session : gmap string string)
  : string * vstate * gmap string string :=
  match session !! character with
  | Some v => (v, st, session)
  | None =>
    if truthy (elevenlabs_voice_id t) then
      let v := get_or (elevenlabs_voice_id t) "" in
      (v, st, <[character := v]> session)
    else
    match voice_cache st !! character with
    | Some v => (v, st, <[character := v]> session)
    | None =>
      if negb has_client then (fallback_voice_id t, st, session)
      else
        let description := build_voice_description t emotion in
        let '(ov, st) := create_voice_from_description st description character in
        if truthy ov then
          let v := get_or ov "" in
          (v, mk_vstate (<[character := v]> (voice_cache st)) (create_requests st),
           <[character := v]> session)
        else (fallback_voice_id t, st, session)
    end
  end.

(** [resolve] called [n] times with the same arguments in one session: the
    handles returned, the final state and session map. *)
Fixpoint resolve_n (n : nat) (st : vstate) (character : string) (t : traits)
    (emotion : string) (session : gmap string string)
  : list string * vstate * gmap string string :=
  match n with
  | 0 => ([], st, session)
  | S n' =>
      let '(v, st, session) := get_or_create_voice st character t emotion session in
      let '(vs, st, session) := resolve_n n' st character t emotion session in
      (v :: vs, st, session)
  end.

(** The state threaded through [generate_voices]: [audio_files], the files
    on disk, the generator's caches and [character_voice_map]. *)
Record vg_state := mk_vg {
  vg_audio : gmap string string;
  vg_fs : gmap string contents;
  vg_voices : vstate;
  vg_session : gmap string string
}.

Definition block_id (blk : block) : string := get_or (b_id blk) "unknown".
Definition block_character (blk : block) : string := get_or (b_character blk) "Unknown".
Definition block_text (blk : block) : string := get_or (b_text blk) "".
Definition block_emotion (blk : block) : string := get_or (b_emotion blk) "neutral".

Definition audio_dir_of (project_dir : option string) : string :=
  if truthy project_dir then path_join (get_or project_dir "") "audio" else "audio".

(** [audio_filename = f"{character}_{block_id}.mp3"] *)
Definition audio_filename (blk : block) : string :=
  block_character blk +:+ "_" +:+ block_id blk +:+ ".mp3".

Definition audio_path (project_dir : option string) (blk : block) : string :=
  path_join (audio_dir_of project_dir) (audio_filename blk).

Definition metadata_path (audio_path : string) : string :=
  replace ".mp3" "_metadata.txt" audio_path.

(** [_generate_audio_with_elevenlabs]: the path on success, [None] otherwise
    (every exception is caught inside). *)
Definition generate_audio (fs : gmap string contents) (text voice_id output_path : string)
  : option string * gmap string contents :=
  match synth text voice_id with
  | None => (None, fs)
  | Some bs =>
      if io_ok output_path then (Some output_path, <[output_path := Bytes bs]> fs)
      else (None, fs)
  end.

(** [_create_mp3_file]: [None] when it raises, with the files written so far. *)
Definition create_mp3_file (fs : gmap string contents)
    (text character block_id audio_dir audio_filename : string)
  : option string * gmap string contents :=
  let audio_path := path_join audio_dir audio_filename in
  if negb (io_ok audio_dir) then (None, fs) else
  if negb (io_ok audio_path) then (None, fs) else
  let fs := <[audio_path := Bytes placeholder_mp3]> fs in
  let meta := metadata_path audio_path in
  if negb (io_ok meta) then (None, fs) else
  (Some audio_path, <[meta := Text (metadata_text character text block_id audio_filename)]> fs).

(** Outcome of one iteration of the [for block in script] loop. *)
Inductive outcome := Continue (s : vg_state) | Raised (s : vg_state).

Definition process_block (project_dir : option string) (s : vg_state) (blk : block)
  : outcome :=
  if negb (Compiler.is_type "dialogue" blk) then Continue s else
  let bid := block_id blk in
  let character := block_character blk in
  let text := block_text blk in
  if is_blank text then Continue s else
  let audio_dir := audio_dir_of project_dir in
  if negb (io_ok audio_dir) then Raised s else
  let fname := audio_filename blk in
  let path := path_join audio_dir fname in
  if bool_decide (is_Some (vg_fs s !! path)) then
    Continue (mk_vg (<[bid := path]> (vg_audio s)) (vg_fs s) (vg_voices s) (vg_session s))
  else
  let '(voice_id, voices, session) :=
    get_or_create_voice (vg_voices s) character (b_traits blk) (block_emotion blk)
      (vg_session s) in
  let fallback fs :=
    match create_mp3_file fs text character bid audio_dir fname with
    | (Some mp3, fs) => Continue (mk_vg (<[bid := mp3]> (vg_audio s)) fs voices session)
    | (None, fs) => Raised (mk_vg (vg_audio s) fs voices session)
    end in
  if truthy (Some voice_id) then
    match generate_audio (vg_fs s) text voice_id path with
    | (Some p, fs) => Continue (mk_vg (<[bid := p]> (vg_audio s)) fs voices session)
    | (None, fs) => fallback fs
    end
  else fallback (vg_fs s).

Fixpoint voices_loop (project_dir : option string) (s : vg_state) (script : list block)
  : outcome :=
  match script with
  | [] => Continue s
  | blk :: script' =>
      match process_block project_dir s blk with
      | Continue s' => voices_loop project_dir s' script'
      | Raised s' => Raised s'
      end
  end.

(** [generate_voices]: the returned [audio_files] (the empty dict when the
    loop raised) and the state after the call. *)
Definition generate_voices (st : vstate) (fs : gmap string contents)
    (script : list block) (project_dir : option string)
  : gmap string string * vg_state :=
  match voices_loop project_dir (mk_vg ∅ fs st ∅) script with
  | Continue s => (vg_audio s, s)
  | Raised s => (∅, s)
  end.

(** [regenerate_voice block_id script_block project_dir]: the path returned
    ([None] when it raises), the generator's state and the files. *)
Definition regenerate_voice (st : vstate) (fs : gmap string contents) (block_id : string)
    (script_block : block) (project_dir : option string)
  : option string * vstate * gmap string contents :=
  let character := block_character script_block in
  let text := block_text script_block in
  let t := b_traits script_block in
  let emotion := block_emotion script_block in
  let st := mk_vstate (delete character (voice_cache st)) (create_requests st) in
  let audio_dir := audio_dir_of project_dir in
  if negb (io_ok audio_dir) then (None, st, fs) else
  let audio_filename := character +:+ "_" +:+ block_id +:+ ".mp3" in
  let audio_path := path_join audio_dir audio_filename in
  let '(voice_id, st, _) := get_or_create_voice st character t emotion ∅ in
  let fallback fs :=
    match create_mp3_file fs text character block_id audio_dir audio_filename with
    | (r, fs) => (r, st, fs)
    end in
  if truthy (Some voice_id) then
    match generate_audio fs text voice_id audio_path with
    | (Some p, fs) => (Some p, st, fs)
    | (None, fs) => fallback fs
    end
  else fallback fs.

End Voice.
End Voice.

(** ** HTML preview player: the script of [SceneRenderer._create_html_preview]

    The client state is [currentBlock], [isPlaying] and [sceneTimer]; the
    browser's pending [setTimeout] callbacks are [pending], and [next_timer]
    is the handle the next [setTimeout] returns. Which pending timer fires
    next is left to the environment (event [Fire t]). *)
Module Player.

Record pstate := mk_pstate {
  current_block : nat;
  is_playing : bool;
  scene_timer : option nat;
  pending : list nat;
  next_timer : nat
}.

Section Player.
Variable n_blocks : nat.  (** [sceneBlocks.length] *)

(** [clearTimeout(t)] *)
Definition clear_timeout (t : nat) (ts : list nat) : list nat :=
  filter (fun t' => negb (Nat.eqb t t')) ts.

(** [pauseScene] *)
Definition pause_scene (st : pstate) : pstate :=
  match scene_timer st with
  | Some t => mk_pstate (current_block st) false None
                (clear_timeout t (pending st)) (next_timer st)
  | None => mk_pstate (current_block st) false (scene_timer st)
                (pending st) (next_timer st)
  end.

(** [playCurrentBlock] (display updates omitted): when playing, arms
    [sceneTimer = setTimeout(...)]. *)
Definition play_current_block (st : pstate) : pstate :=
  if Nat.leb n_blocks (current_block st) then pause_scene st
  else if is_playing st then
    mk_pstate (current_block st) true (Some (next_timer st))
      (next_timer st :: pending st) (S (next_timer st))
  else st.

(** [startScene] *)
Definition start_scene (st : pstate) : pstate :=
  play_current_block
    (mk_pstate (current_block st) true (scene_timer st) (pending st) (next_timer st)).

(** [resetScene] *)
Definition reset_scene (st : pstate) : pstate :=
  let st := pause_scene st in
  mk_pstate 0 (is_playing st) (scene_timer st) (pending st) (next_timer st).

(** [nextBlock] *)
Definition next_block (st : pstate) : pstate :=
  if Nat.ltb (current_block st) (n_blocks - 1) then
    play_current_block
      (mk_pstate (S (current_block st)) (is_playing st) (scene_timer st)
         (pending st) (next_timer st))
  else st.

(** The callback of timer [t]: [currentBlock++; playCurrentBlock();]. *)
Definition fire (t : nat) (st : pstate) : pstate :=
  if bool_decide (t ∈ pending st) then
    play_current_block
      (mk_pstate (S (current_block st)) (is_playing st) (scene_timer st)
         (clear_timeout t (pending st)) (next_timer st))
  else st.

Inductive event := Start | Pause | Reset | Next | Fire (t : nat).

Definition step (st : pstate) (e : event) : pstate :=
  match e with
  | Start => start_scene st
  | Pause => pause_scene st
  | Reset => reset_scene st
  | Next => next_block st
  | Fire t => fire t st
  end.

Definition run (st : pstate) (es : list event) : pstate := fold_left step es st.

(** After [DOMContentLoaded]: [resetScene()] when there are blocks. *)
Definition initial : pstate :=
  let st := mk_pstate 0 false None [] 1 in
  if Nat.ltb 0 n_blocks then reset_scene st else st.

(** A use of the preview in which Play ([startScene]) and Next
    ([nextBlock]) are only clicked while the scene is not playing. *)
Fixpoint calm (st : pstate) (es : list event) : bool :=
  match es with
  | [] => true
  | e :: es' =>
      match e with Start | Next => negb (is_playing st) | _ => true end
      && calm (step st e) es'
  end.

End Player.
End Player.

(** ** Project folders: [app.generate_folder_name] *)
Module App.
Import Str.

(** [re.sub(r'[-\s]+', '_', s)]: each maximal run of [-] and whitespace
    becomes one [_]; [in_run] tells whether the previous character was in
    such a run. *)
Fixpoint collapse_runs (in_run : bool) (s : string) : string :=
  match s with
  | EmptyString => EmptyString
  | String c s' =>
      if is_space c || Ascii.eqb c "-" then
        if in_run then collapse_runs true s' else String "_" (collapse_runs true s')
      else String c (collapse_runs false s')
  end.

(** [generate_folder_name(prompt)]; [timestamp] is
    [datetime.now().strftime("%Y%m%d_%H%M%S")] and [unique_id] is
    [str(uuid.uuid4())[:8]]. *)
Definition generate_folder_name (prompt timestamp unique_id : string) : string :=
  let clean_prompt :=
    strip_ws (filter_chars (fun c => is_word c || is_space c || Ascii.eqb c "-")
                (String.substring 0 50 prompt)) in
  let clean_prompt := collapse_runs false clean_prompt in
  clean_prompt +:+ "_" +:+ timestamp +:+ "_" +:+ unique_id.

End App.

(** ** Project names: [SceneRenderer._generate_project_name] *)
Module Render.
Import Str.

(** [text_parts]: the first three words of each dialogue block among the
    first three blocks. *)
Fixpoint text_parts_of (blocks : list block) : list string :=
  match blocks with
  | [] => []
  | b :: blocks' =>
      (if Compiler.is_type "dialogue" b then take 3 (split_ws (get_or (b_text b) "")) else [])
      ++ text_parts_of blocks'
  end.

Definition project_text_parts (blocks : list block) : list string :=
  text_parts_of (take 3 blocks).

(** [_generate_project_name], for the blocks of [script.get('blocks', [])]. *)
Definition generate_project_name (blocks : list block) : string :=
  match project_text_parts blocks with
  | [] => "infiniti_v_scene"
  | text_parts =>
      let project_name := lower (String.concat "_" text_parts) in
      let project_name := filter_chars is_word project_name in
      String.substring 0 20 project_name
  end.

End Render.

(** ** Concrete inputs used by the properties below *)
Module Samples.

(** A block with the given [id] and [type] and nothing else. *)
Definition plain_block (i t : option string) : block :=
  mk_block i t None None None no_traits None None [] None.

Definition d0 := plain_block (Some "dialogue_1") (Some "dialogue").
Definition d1 := plain_block (Some "dialogue_2") (Some "dialogue").
Definition a0 := plain_block (Some "action_1") (Some "action").
Definition a1 := plain_block (Some "action_2") (Some "action").

(** An action block without an [id], and a dialogue block whose own id
    happens to be [block_1]. *)
Definition a_noid := plain_block None (Some "action").
Definition d_block1 := plain_block (Some "block_1") (Some "dialogue").

Definition plan0 := Assembler.mk_plan (Some "a rainy street") (Some "tense").

(** A dialogue block. *)
Definition line (i c t : string) : block :=
  mk_block (Some i) (Some "dialogue") (Some c) (Some t) (Some "neutral") no_traits
    None None [] None.

(** Spec scenario 1: Dialogue = [A says "Hi", B says "Hello"], Actions = []. *)
Definition two_speakers : list block :=
  Assembler.structure_as_json [line "dialogue_1" "A" "Hi"; line "dialogue_2" "B" "Hello"] [] plan0.

(** An environment block about rain, with [sound_implications = ["rain"]]. *)
Definition rain_env : block :=
  mk_block (Some "env_1") (Some "environment") None None None no_traits None
    (Some "Rain begins") ["rain"] None.

(** Spec scenario 2: Dialogue = [], Actions = [env: "rain begins"]. *)
Definition rain_scene : list block := Assembler.structure_as_json [] [rain_env] plan0.

(** Three speakers; the second one's name contains a [/], so its audio
    path [audio/Guard/Captain_dialogue_2.mp3] lies in a directory that
    [os.makedirs("audio")] did not create and [open] raises. *)
Definition three_speakers : list block :=
  [line "dialogue_1" "Alice" "We should go."; line "dialogue_2" "Guard/Captain" "Halt!";
   line "dialogue_3" "Bob" "Run."].

Definition io_ok_guard (path : string) : bool :=
  negb (String.prefix "audio/Guard/" path).

(** A scene with one dialogue block, as assembled. *)
Definition alice_scene : list block :=
  Assembler.structure_as_json [line "dialogue_1" "Alice" "We should go."] [] plan0.

End Samples.

(** * Properties *)

(** ** Timeline assembler *)
Module AssemblerProofs.
Local Open Scope nat_scope.
Local Open Scope list_scope.
Import Assembler.

Lemma interleaving_app {A} (l1 l2 l m1 m2 m : list A) :
  interleaving l1 l2 l -> interleaving m1 m2 m ->
  interleaving (l1 ++ m1) (l2 ++ m2) (l ++ m).
Proof.
  intros H Hm. induction H; simpl; [done | by constructor | by constructor].
Qed.

Lemma interleaving_left_only {A} (l : list A) : interleaving l [] l.
Proof. induction l; by constructor. Qed.

Lemma interleaving_right_only {A} (l : list A) : interleaving [] l l.
Proof. induction l; by constructor. Qed.

Lemma interleaving_right_then_left {A} (l1 l2 : list A) :
  interleaving l1 l2 (l2 ++ l1).
Proof.
  induction l2; simpl; [apply interleaving_left_only | by constructor].
Qed.

(** Loop invariant of the [for] loop: the accumulated script is the scene
    block followed by an interleaving of the consumed prefixes. *)
Definition loop_inv (dialogue actions : list block) (s0 : block)
    (st : nat * nat * list block) : Prop :=
  let '(ai, di, acc) := st in
  ai <= length actions /\ di <= length dialogue /\
  exists L, acc = s0 :: L /\ interleaving (take di dialogue) (take ai actions) L.

Lemma interleave_step_inv dialogue actions s0 i st :
  loop_inv dialogue actions s0 st ->
  loop_inv dialogue actions s0 (interleave_step dialogue actions i st).
Proof.
  destruct st as [[ai di] acc]. intros (Hai & Hdi & L & -> & HL).
  unfold interleave_step.
  set (mid := if (Nat.ltb ai (length actions)) && Nat.even i then
      match actions !! ai with
      | Some a => (S ai, (s0 :: L) ++ [a])
      | None => (ai, s0 :: L)
      end
    else (ai, s0 :: L)).
  assert (Hmid : mid.1 <= length actions /\ exists L', mid.2 = s0 :: L' /\
            interleaving (take di dialogue) (take mid.1 actions) L').
  { subst mid. destruct (Nat.ltb ai (length actions) && Nat.even i) eqn:E.
    - apply andb_true_iff in E as [E _]. apply Nat.ltb_lt in E.
      destruct (actions !! ai) as [a|] eqn:Ha; simpl.
      + split; [lia|]. exists (L ++ [a]). split; [done|].
        rewrite (take_S_r _ _ a) by done.
        rewrite <- (app_nil_r (take di dialogue)).
        apply interleaving_app; [done|]. repeat constructor.
      + eauto.
    - simpl. eauto. }
  destruct mid as [ai' acc'] eqn:Emid. simpl in Hmid.
  destruct Hmid as (Hai' & L' & -> & HL').
  destruct (Nat.ltb di (length dialogue)) eqn:E.
  - apply Nat.ltb_lt in E.
    destruct (dialogue !! di) as [d|] eqn:Hd.
    + split; [lia|]. split; [lia|]. exists (L' ++ [d]). split; [done|].
      rewrite (take_S_r _ _ d) by done.
      rewrite <- (app_nil_r (take ai' actions)).
      apply interleaving_app; [done|]. repeat constructor.
    + simpl. split; [lia|]. split; [lia|]. eauto.
  - simpl. split; [lia|]. split; [lia|]. eauto.
Qed.

Lemma interleave_loop_inv dialogue actions s0 k i st :
  loop_inv dialogue actions s0 st ->
  loop_inv dialogue actions s0 (interleave_loop dialogue actions k i st).
Proof.
  revert i st. induction k as [|k IH]; intros i st H; simpl; [done|].
  apply IH, interleave_step_inv, H.
Qed.

Lemma fill_id_truthy i b : truthy (b_id b) = true -> fill_id i b = b.
Proof. unfold fill_id. by intros ->. Qed.

(** C2: after the single leading scene block, the assembled timeline is a
    stable interleaving of the dialogue and the action streams: every element
    of each stream occurs exactly once and in its original relative order.
    The only change made to an element is the positional id [block_<index>]
    given by [fill_id] to a block whose id is missing or empty. *)
Theorem structure_as_json_interleaves (dialogue actions : list block) (p : scene_plan) :
  exists L, interleaving dialogue actions L /\
    structure_as_json dialogue actions p
    = scene_block p :: imap (fun i b => fill_id (S i) b) L.
Proof.
  unfold structure_as_json.
  pose proof (interleave_loop_inv dialogue actions (scene_block p)
    (Nat.max (length dialogue) (length actions) * 2) 0 (0, 0, [scene_block p]))
    as Hinv.
  destruct (interleave_loop _ _ _ _ _) as [[ai di] acc].
  destruct Hinv as (Hai & Hdi & L & -> & HL).
  { simpl. split; [lia|]. split; [lia|]. exists []. split; [done|]. constructor. }
  exists (L ++ drop ai actions ++ drop di dialogue). split.
  - rewrite <- (take_drop di dialogue), <- (take_drop ai actions) at 1.
    apply interleaving_app; [done|]. apply interleaving_right_then_left.
  - unfold fill_ids. rewrite <- app_assoc, <- app_comm_cons, imap_cons.
    by rewrite fill_id_truthy.
Qed.

(** C1 (code defect): on two dialogue and two action blocks the assembler
    does not produce the round-robin [a0, d0, a1, d1]: the dialogue index
    advances on every iteration of the loop while the action index advances
    only on even iterations, giving [a0, d0, d1, a1]. *)
Theorem structure_as_json_not_round_robin :
  let D := [Samples.d0; Samples.d1] in
  let A := [Samples.a0; Samples.a1] in
  structure_as_json D A Samples.plan0
    = [scene_block Samples.plan0; Samples.a0; Samples.d0; Samples.d1; Samples.a1]
  /\ structure_as_json D A Samples.plan0
    <> scene_block Samples.plan0 :: round_robin D A.
Proof. split; [reflexivity | discriminate]. Qed.

(** C3 (code defect): the id pass only fills missing ids; it does not make
    them unique. An action without an id placed at index 1 gets [block_1],
    the id the following dialogue block already carries. *)
Theorem structure_as_json_duplicate_ids :
  map b_id (structure_as_json [Samples.d_block1] [Samples.a_noid] Samples.plan0)
    = [Some "scene_start"; Some "block_1"; Some "block_1"]
  /\ ~ NoDup (map b_id (structure_as_json [Samples.d_block1] [Samples.a_noid] Samples.plan0)).
Proof.
  split; [reflexivity|]. vm_compute. intros Hnd.
  inversion Hnd as [|? ? _ Hnd']. inversion Hnd' as [|? ? Hin _].
  apply Hin. left.
Qed.

End AssemblerProofs.


(** ** Scene compiler *)
Module CompilerProofs.
Import Str Compiler.
Local Open Scope list_scope.

Lemma char_var_has_a (name : string) : contains "a" (char_var name) = true.
Proof. reflexivity. Qed.

(** Every character placed by the compiler is placed on the left: its
    variable [char_...] always contains the letter [a]. *)
Lemma entrance_position_always_left (name : string) :
  entrance_position (char_var name) = "left".
Proof. unfold entrance_position. by rewrite char_var_has_a. Qed.

(** C4 (code defect): on the spec's two-speaker scene the compiler places
    both characters on the left; [pos = "left" if "a" in var else "right"]
    tests the variable [char_<name>], which always contains [a]. *)
Theorem renpy_two_speakers_both_left :
  (forall name, entrance_position (char_var name) = "left") /\
  option_map (filter (String.prefix "    show "))
    (generate_renpy_lines Samples.two_speakers ∅ [])
  = Some ["    show char_a at left, appear"; "    show char_b at left, appear"].
Proof. split; [exact entrance_position_always_left | reflexivity]. Qed.










(** C5 (code defect): the spec's rain scene, whose environment block has
    [sound_implications = ["rain"]], compiles to a script that declares
    [audio.rain] in its sound-effect map but contains no sound cue. *)
Lemma renpy_rain_scene_has_no_cue :
  exists out, generate_renpy_lines Samples.rain_scene ∅ [] = Some out /\
    existsb (String.eqb ("define audio.rain      = " +:+ dq +:+ "audio/sfx_rain.mp3" +:+ dq)) out
      = true /\
    existsb is_play_instruction out = false.
Proof. eexists. split_and!; reflexivity. Qed.

End CompilerProofs.

(** ** HTML preview player *)
Module PlayerProofs.
Import Player.

(** C7 (code defect): with three blocks, pressing Play and then Next leaves
    two pending auto-advance timers: [nextBlock] calls [playCurrentBlock],
    which arms a new [setTimeout] without clearing the pending one. When both
    fire, the scene advances twice. *)
Theorem player_next_while_playing_two_timers :
  pending (run 3 (initial 3) [Start; Next]) = [2; 1] /\
  current_block (run 3 (initial 3) [Start; Next; Fire 1; Fire 2]) = 3.
Proof. split; reflexivity. Qed.

End PlayerProofs.

(** ** Voice stage *)
Module VoiceProofs.
Import Str Voice.
Local Open Scope nat_scope.
Local Open Scope list_scope.

Section Registry.
Variable has_client : bool.
Variable collab : nat -> string -> string -> option string.

Ltac inj_subst := let E := fresh in intros E; injection E; intros; subst.

Lemma get_or_create_voice_requests st ch t em s h st1 s1 :
  get_or_create_voice has_client collab st ch t em s = (h, st1, s1) ->
  create_requests st1 <= S (create_requests st).
Proof.
  unfold get_or_create_voice, create_voice_from_description.
  destruct (s !! ch); [inj_subst; lia|].
  destruct (truthy (elevenlabs_voice_id t)); [inj_subst; lia|].
  destruct (voice_cache st !! ch); [inj_subst; lia|].
  destruct has_client; simpl; [|inj_subst; lia].
  repeat case_match; intros; simplify_eq/=; lia.
Qed.

(** Once a call has answered, the same call from the resulting state and
    session map answers the same handle and changes nothing, provided the
    creation requests of the voice service succeed. *)
Lemma get_or_create_voice_stable st ch t em s h st1 s1 :
  has_client = false \/ (forall k d nm, truthy (collab k d nm) = true) ->
  get_or_create_voice has_client collab st ch t em s = (h, st1, s1) ->
  get_or_create_voice has_client collab st1 ch t em s1 = (h, st1, s1).
Proof.
  intros Hcol. unfold get_or_create_voice at 1, create_voice_from_description.
  destruct (s !! ch) eqn:Hs.
  { intros [= <- <- <-]. unfold get_or_create_voice. by rewrite Hs. }
  destruct (truthy (elevenlabs_voice_id t)) eqn:Ht.
  { intros [= <- <- <-]. unfold get_or_create_voice. by rewrite lookup_insert_eq. }
  destruct (voice_cache st !! ch) eqn:Hc.
  { intros [= <- <- <-]. unfold get_or_create_voice. by rewrite lookup_insert_eq. }
  destruct has_client eqn:Hcl; simpl.
  2: { intros [= <- <- <-]. unfold get_or_create_voice. by rewrite Hs, Ht, Hc. }
  destruct (voice_cache st !! build_voice_description t em) as [v|] eqn:Hd.
  - destruct (truthy (Some v)) eqn:Hv.
    + intros [= <- <- <-]. unfold get_or_create_voice. by rewrite lookup_insert_eq.
    + intros [= <- <- <-]. unfold get_or_create_voice, create_voice_from_description.
      rewrite Hs, Ht, Hc, Hd. simpl. simpl in Hv. by rewrite Hv.
  - destruct Hcol as [Hf | Hcol]; [discriminate|].
    pose proof (Hcol (create_requests st) (build_voice_description t em) ch) as Hk.
    destruct (collab _ _ _) as [v|]; [|discriminate]. simpl in Hk |- *. rewrite Hk.
    intros [= <- <- <-]. unfold get_or_create_voice. by rewrite lookup_insert_eq.
Qed.

Lemma resolve_n_stable n st ch t em s h :
  get_or_create_voice has_client collab st ch t em s = (h, st, s) ->
  resolve_n has_client collab n st ch t em s = (replicate n h, st, s).
Proof.
  intros Hfix. induction n as [|n IH]; simpl; [done|]. by rewrite Hfix, IH.
Qed.


(** A creation that fails is not cached: for a character without a trait
    voice id, not in the session map nor in the voice cache, whose
    description has no cached voice either, every call to a failing voice
    service sends a new creation request and answers the gender fallback. *)
Lemma resolve_n_failing n st ch t em s :
  (forall k d nm, collab k d nm = None) ->
  s !! ch = None -> voice_cache st !! ch = None ->
  voice_cache st !! build_voice_description t em = None ->
  truthy (elevenlabs_voice_id t) = false ->
  resolve_n true collab n st ch t em s
  = (replicate n (fallback_voice_id t), mk_vstate (voice_cache st) (create_requests st + n), s).
Proof.
  intros Hcol Hs Hc Hd Ht. revert st Hc Hd.
  induction n as [|n IH]; intros st Hc Hd; simpl.
  - rewrite Nat.add_0_r. by destruct st.
  - unfold get_or_create_voice at 1, create_voice_from_description.
    rewrite Hs, Ht, Hc. simpl. rewrite Hd, Hcol. simpl.
    rewrite IH by done. simpl. do 3 f_equal. lia.
Qed.

End Registry.

(** C6 (corrected): when the voice service's creation requests succeed, or
    no client is configured, [resolve] called [N] times with identical
    arguments in one session sends at most one creation request and returns
    the first call's handle every time. A failed creation is not cached:
    with a failing service, for a character without a trait voice id, not
    yet in the session map or the voice cache and whose description has no
    cached voice, each of the [N] calls sends a new creation request and
    returns the gender fallback voice, and the cache and session map stay
    as they were. *)
Theorem resolve_repeated_calls
    (has_client : bool) (collab : nat -> string -> string -> option string)
    (st : vstate) (character : string) (t : traits) (emotion : string)
    (session : gmap string string) (N : nat) :
  ((has_client = false \/ forall k d nm, truthy (collab k d nm) = true) ->
   let '(hs, st', _) := resolve_n has_client collab N st character t emotion session in
   create_requests st' <= S (create_requests st) /\
   Forall (fun h => h = (get_or_create_voice has_client collab st character t emotion session).1.1) hs)
  /\
  (has_client = true -> (forall k d nm, collab k d nm = None) ->
   session !! character = None -> voice_cache st !! character = None ->
   voice_cache st !! build_voice_description t emotion = None ->
   truthy (elevenlabs_voice_id t) = false ->
   resolve_n has_client collab N st character t emotion session
   = (replicate N (fallback_voice_id t),
      mk_vstate (voice_cache st) (create_requests st + N), session)).
Proof.
  split.
  - intros Hcol. destruct N as [|N]; simpl; [split; [lia | constructor]|].
    destruct (get_or_create_voice has_client collab st character t emotion session)
      as [[h st1] s1] eqn:E1.
    rewrite (resolve_n_stable has_client collab N st1 character t emotion s1 h)
      by (eapply get_or_create_voice_stable; eauto).
    simpl. split.
    + eapply get_or_create_voice_requests; eauto.
    + constructor; [done|]. apply Forall_replicate. done.
  - intros -> Hcol Hs Hc Hd Ht. by apply resolve_n_failing.
Qed.

Lemma resolve_repeated_calls_witness :
  (let '(hs, st', _) := resolve_n true (fun _ _ _ => Some "voice_mira") 3
      (mk_vstate ∅ 0) "Mira" no_traits "calm" ∅ in
   create_requests st' <= 1 /\ Forall (fun h => h = "voice_mira") hs) /\
  resolve_n true (fun _ _ _ => None) 3 (mk_vstate ∅ 0) "Mira" no_traits "calm" ∅
  = (replicate 3 (fallback_voice_id no_traits), mk_vstate ∅ 3, ∅).
Proof.
  split.
  - exact (proj1 (resolve_repeated_calls true (fun _ _ _ => Some "voice_mira")
             (mk_vstate ∅ 0) "Mira" no_traits "calm" ∅ 3) (or_intror (fun _ _ _ => eq_refl))).
  - exact (proj2 (resolve_repeated_calls true (fun _ _ _ => None)
             (mk_vstate ∅ 0) "Mira" no_traits "calm" ∅ 3) eq_refl (fun _ _ _ => eq_refl)
             eq_refl eq_refl eq_refl eq_refl).
Defined.

(** C6 counterexample: when the service fails, the failure is not cached and
    two identical calls send two creation requests. *)
Lemma resolve_failing_service_retries :
  create_requests (resolve_n true (fun _ _ _ => None) 2
    (mk_vstate ∅ 0) "Mira" no_traits "neutral" ∅).1.2 = 2.
Proof. reflexivity. Qed.

End VoiceProofs.

(** ** Asset provisioning in the voice stage *)
Module ProvisionProofs.
Import Str Voice.
Local Open Scope nat_scope.
Local Open Scope list_scope.
Local Arguments String.append : simpl nomatch.

Lemma length_append (a b : string) :
  String.length (a +:+ b) = String.length a + String.length b.
Proof. induction a; simpl; lia. Qed.

Lemma str_append_assoc (a b c : string) : a +:+ b +:+ c = (a +:+ b) +:+ c.
Proof. induction a; simpl; [done|]. by f_equal. Qed.

Lemma length_str_drop n s : String.length (str_drop n s) = String.length s - n.
Proof. revert s. induction n; intros [|c s]; simpl; auto; lia. Qed.

Lemma prefix_length a b : String.prefix a b = true -> String.length a <= String.length b.
Proof.
  revert b. induction a as [|c a IH]; intros [|d b]; simpl; try lia; try discriminate.
  destruct (ascii_dec c d); [|discriminate]. intros H. apply IH in H. lia.
Qed.

Lemma prefix_refl a : String.prefix a a = true.
Proof. induction a as [|c a IH]; simpl; [done|]. destruct (ascii_dec c c); [done|congruence]. Qed.

Lemma contains_suffix x needle : contains needle (x +:+ needle) = true.
Proof.
  induction x as [|c x IH]; simpl.
  - destruct needle; simpl; [done|]. rewrite prefix_refl. destruct (ascii_dec _ _); [done|congruence].
  - rewrite IH. apply orb_true_r.
Qed.

Lemma contains_unfold needle hay :
  contains needle hay = String.prefix needle hay ||
    match hay with EmptyString => false | String _ hay' => contains needle hay' end.
Proof. by destruct hay. Qed.

Lemma replace_go_not_shorter fuel old new s :
  String.length old <= String.length new ->
  String.length s <= String.length (replace_go fuel old new s).
Proof.
  intros Hlen. revert s. induction fuel as [|fuel IH]; intros s; simpl; [lia|].
  destruct (String.prefix old s) eqn:Hp.
  - rewrite length_append.
    specialize (IH (str_drop (String.length old) s)). rewrite length_str_drop in IH. lia.
  - destruct s as [|c s]; simpl; [lia|]. specialize (IH s). lia.
Qed.

Lemma replace_go_longer fuel old new s :
  old <> "" -> String.length old < String.length new ->
  String.length s <= fuel -> contains old s = true ->
  String.length s < String.length (replace_go fuel old new s).
Proof.
  intros Hold Hlen. revert s. induction fuel as [|fuel IH]; intros s Hs Hc.
  - destruct s; simpl in Hs; [|lia]. destruct old; [done|]. discriminate.
  - simpl. destruct (String.prefix old s) eqn:Hp.
    + rewrite length_append. apply prefix_length in Hp.
      pose proof (replace_go_not_shorter fuel old new (str_drop (String.length old) s)
        ltac:(lia)) as Hr.
      rewrite length_str_drop in Hr. lia.
    + rewrite contains_unfold, Hp in Hc. simpl in Hc.
      destruct s as [|c s]; [discriminate|].
      simpl in Hs |- *. specialize (IH s ltac:(lia) Hc). lia.
Qed.

(** The sidecar path differs from the audio path it is derived from. *)
Lemma metadata_path_differs x : metadata_path (x +:+ ".mp3") <> x +:+ ".mp3".
Proof.
  unfold metadata_path, replace. intros E.
  pose proof (replace_go_longer (String.length (x +:+ ".mp3")) ".mp3" "_metadata.txt"
    (x +:+ ".mp3") ltac:(discriminate) ltac:(simpl; lia) ltac:(lia) (contains_suffix _ _)) as H.
  rewrite E in H. lia.
Qed.

Lemma path_join_mp3 dir x : exists y, path_join dir (x +:+ ".mp3") = y +:+ ".mp3".
Proof.
  unfold path_join. repeat case_decide; try case_match; eauto.
  - exists (dir +:+ x). by rewrite <- str_append_assoc.
  - exists (dir +:+ "/" +:+ x). by rewrite <- !str_append_assoc.
Qed.

Lemma audio_path_mp3 pd blk : exists y, audio_path pd blk = y +:+ ".mp3".
Proof.
  unfold audio_path, audio_filename.
  rewrite (str_append_assoc (block_character blk)), (str_append_assoc (block_character blk +:+ "_")).
  apply path_join_mp3.
Qed.

Section Provision.
Variable has_client : bool.
Variable collab : nat -> string -> string -> option string.
Variable synth : string -> string -> option (list byte).
Variable io_ok : string -> bool.

Definition files_nonempty (fs : gmap string contents) : Prop :=
  forall p c, fs !! p = Some c -> nonempty c.

Definition audio_present (s : vg_state) : Prop :=
  forall bid p, vg_audio s !! bid = Some p -> is_Some (vg_fs s !! p).







Section Offline.
Hypothesis Hio : forall p, io_ok p = true.
Hypothesis Hsyn : forall t v, synth t v = None.

Lemma placeholder_nonempty : nonempty (Bytes placeholder_mp3).
Proof. discriminate. Qed.

Lemma metadata_nonempty ch t bid fname : nonempty (Text (metadata_text ch t bid fname)).
Proof. unfold metadata_text. simpl. discriminate. Qed.

Lemma metadata_audio_path_ne pd blk : metadata_path (audio_path pd blk) <> audio_path pd blk.
Proof. destruct (audio_path_mp3 pd blk) as [y ->]. apply metadata_path_differs. Qed.

Lemma process_block_placeholder pd s blk :
  Compiler.is_type "dialogue" blk = true -> is_blank (block_text blk) = false ->
  vg_fs s !! audio_path pd blk = None ->
  exists s1, process_block has_client collab synth io_ok pd s blk = Continue s1 /\
    vg_fs s1 = <[metadata_path (audio_path pd blk) :=
                  Text (metadata_text (block_character blk) (block_text blk)
                          (block_id blk) (audio_filename blk))]>
               (<[audio_path pd blk := Bytes placeholder_mp3]> (vg_fs s)) /\
    vg_audio s1 = <[block_id blk := audio_path pd blk]> (vg_audio s).
Proof.
  intros Hd Hb Hn. unfold process_block. rewrite Hd, Hb, Hio. cbn [negb].
  rewrite bool_decide_false; [|unfold audio_path in Hn; rewrite Hn; by intros [? ?]].
  destruct (get_or_create_voice _ _ _ _ _ _ _) as [[v voices] session].
  unfold generate_audio, create_mp3_file. rewrite Hsyn, !Hio. cbn [negb].
  case_match; eexists; (split; [reflexivity|]); done.
Qed.

Lemma process_block_provision pd s blk :
  files_nonempty (vg_fs s) -> audio_present s ->
  exists s', process_block has_client collab synth io_ok pd s blk = Continue s' /\
    files_nonempty (vg_fs s') /\ audio_present s' /\
    (forall q, is_Some (vg_fs s !! q) -> is_Some (vg_fs s' !! q)) /\
    (Compiler.is_type "dialogue" blk = true -> is_blank (block_text blk) = false ->
     is_Some (vg_fs s' !! audio_path pd blk)).
Proof.
  intros Hne Hap.
  destruct (Compiler.is_type "dialogue" blk) eqn:Hd.
  2:{ exists s. unfold process_block. rewrite Hd. split; [done|]. naive_solver. }
  destruct (is_blank (block_text blk)) eqn:Hb.
  { exists s. unfold process_block. rewrite Hd, Hb. split; [done|]. naive_solver. }
  destruct (vg_fs s !! audio_path pd blk) as [c|] eqn:Hex.
  - exists (mk_vg (<[block_id blk := audio_path pd blk]> (vg_audio s)) (vg_fs s)
                  (vg_voices s) (vg_session s)).
    unfold process_block. rewrite Hd, Hb, Hio. cbn [negb].
    rewrite bool_decide_true; [|unfold audio_path in Hex; rewrite Hex; by eexists].
    split; [done|]. split; [done|]. split; [|split; [done|]]; simpl.
    + intros bid p. simpl. rewrite lookup_insert_Some.
      intros [[_ <-] | [_ Hp]]; [by rewrite Hex | by eapply Hap].
    + intros _ _. by rewrite Hex.
  - destruct (process_block_placeholder pd s blk Hd Hb Hex) as (s1 & Hs1 & Hfs & Hau).
    exists s1. split; [done|]. unfold files_nonempty, audio_present. rewrite Hfs, Hau.
    split; [|split; [|split]].
    + intros q c'. simpl. rewrite !lookup_insert_Some.
      intros [[_ <-] | [_ [[_ <-] | [_ Hq]]]];
        [apply metadata_nonempty | apply placeholder_nonempty | by eapply Hne].
    + intros bid p. simpl. rewrite lookup_insert_Some.
      intros [[_ <-] | [_ Hp]]; rewrite !lookup_insert_is_Some'; [by right; left | by right; right; eapply Hap].
    + intros q Hq. rewrite !lookup_insert_is_Some'. by right; right.
    + intros _ _. rewrite !lookup_insert_is_Some'. by right; left.
Qed.

Lemma voices_loop_provision pd script s :
  files_nonempty (vg_fs s) -> audio_present s ->
  exists s', voices_loop has_client collab synth io_ok pd s script = Continue s' /\
    files_nonempty (vg_fs s') /\ audio_present s' /\
    (forall q, is_Some (vg_fs s !! q) -> is_Some (vg_fs s' !! q)) /\
    (forall blk, blk ∈ script -> Compiler.is_type "dialogue" blk = true ->
     is_blank (block_text blk) = false -> is_Some (vg_fs s' !! audio_path pd blk)).
Proof.
  revert s. induction script as [|blk script IH]; intros s Hne Hap; simpl.
  { exists s. split_and!; [done..|]. intros blk Hin. by apply not_elem_of_nil in Hin. }
  destruct (process_block_provision pd s blk Hne Hap) as (s1 & -> & Hne1 & Hap1 & Hmono1 & Hblk).
  destruct (IH s1 Hne1 Hap1) as (s2 & -> & Hne2 & Hap2 & Hmono2 & Hall).
  exists s2. split_and!; [done..| |].
  - intros q Hq. by apply Hmono2, Hmono1.
  - intros b Hin Hd Hb. apply elem_of_cons in Hin as [-> | Hin]; [|by apply Hall].
    by apply Hmono2, Hblk.
Qed.

End Offline.

End Provision.

(** C8: with no real media (every synthesis request fails) and working file
    I/O, [generate_voices] completes; every path it returns exists and is
    non-empty; every dialogue block whose text is not blank (the code's
    [text.strip()] test) has its file at the deterministic path
    [<audio dir>/<character>_<id>.mp3]; and a block whose path is absent gets
    there the silent MP3 placeholder plus the sidecar
    [<character>_<id>_metadata.txt] recording character, text and block id. *)
Theorem generate_voices_offline_placeholders has_client collab synth io_ok
    (st : vstate) (fs : gmap string contents) (script : list block)
    (project_dir : option string) :
  (forall p, io_ok p = true) ->
  (forall text voice_id, synth text voice_id = None) ->
  (forall p c, fs !! p = Some c -> nonempty c) ->
  let '(audio_files, s) :=
    generate_voices has_client collab synth io_ok st fs script project_dir in
  (forall bid p, audio_files !! bid = Some p ->
     exists c, vg_fs s !! p = Some c /\ nonempty c) /\
  (forall blk, blk ∈ script -> Compiler.is_type "dialogue" blk = true ->
     is_blank (block_text blk) = false ->
     exists c, vg_fs s !! audio_path project_dir blk = Some c /\ nonempty c) /\
  (forall s0 blk, Compiler.is_type "dialogue" blk = true ->
     is_blank (block_text blk) = false ->
     vg_fs s0 !! audio_path project_dir blk = None ->
     exists s1,
       process_block has_client collab synth io_ok project_dir s0 blk = Continue s1 /\
       vg_fs s1 !! audio_path project_dir blk = Some (Bytes placeholder_mp3) /\
       vg_fs s1 !! metadata_path (audio_path project_dir blk) =
         Some (Text (metadata_text (block_character blk) (block_text blk)
                       (block_id blk) (audio_filename blk))) /\
       vg_audio s1 !! block_id blk = Some (audio_path project_dir blk)).
Proof.
  intros Hio Hsyn Hne. unfold generate_voices.
  assert (Hap0 : audio_present (mk_vg ∅ fs st ∅)).
  { intros bid p. simpl. by rewrite lookup_empty. }
  destruct (voices_loop_provision has_client collab synth io_ok Hio Hsyn project_dir
              script (mk_vg ∅ fs st ∅) Hne Hap0) as (s' & -> & Hne' & Hap' & _ & Hall).
  split_and!.
  - intros bid p Hp. destruct (Hap' bid p Hp) as [c Hc]. exists c. split; [done|].
    by eapply Hne'.
  - intros blk Hin Hd Hb. destruct (Hall blk Hin Hd Hb) as [c Hc]. exists c.
    split; [done|]. by eapply Hne'.
  - intros s0 blk Hd Hb Hn.
    destruct (process_block_placeholder has_client collab synth io_ok Hio Hsyn
                project_dir s0 blk Hd Hb Hn) as (s1 & Hs1 & Hfs & Hau).
    exists s1. rewrite Hfs, Hau. split_and!; [done| | |].
    + rewrite lookup_insert_ne; [by rewrite lookup_insert_eq|].
      apply metadata_audio_path_ne.
    + by rewrite lookup_insert_eq.
    + by rewrite lookup_insert_eq.
Qed.

Lemma generate_voices_offline_placeholders_witness :
  let '(audio_files, s) :=
    generate_voices false (fun _ _ _ => None) (fun _ _ => None) (fun _ => true)
      (mk_vstate ∅ 0) ∅ Samples.alice_scene None in
  (forall bid p, audio_files !! bid = Some p ->
     exists c, vg_fs s !! p = Some c /\ nonempty c) /\
  (forall blk, blk ∈ Samples.alice_scene -> Compiler.is_type "dialogue" blk = true ->
     is_blank (block_text blk) = false ->
     exists c, vg_fs s !! audio_path None blk = Some c /\ nonempty c) /\
  (forall s0 blk, Compiler.is_type "dialogue" blk = true ->
     is_blank (block_text blk) = false ->
     vg_fs s0 !! audio_path None blk = None ->
     exists s1,
       process_block false (fun _ _ _ => None) (fun _ _ => None) (fun _ => true)
         None s0 blk = Continue s1 /\
       vg_fs s1 !! audio_path None blk = Some (Bytes placeholder_mp3) /\
       vg_fs s1 !! metadata_path (audio_path None blk) =
         Some (Text (metadata_text (block_character blk) (block_text blk)
                       (block_id blk) (audio_filename blk))) /\
       vg_audio s1 !! block_id blk = Some (audio_path None blk)).
Proof.
  exact (generate_voices_offline_placeholders false (fun _ _ _ => None)
           (fun _ _ => None) (fun _ => true) (mk_vstate ∅ 0) ∅ Samples.alice_scene None
           (fun _ => eq_refl) (fun _ _ => eq_refl)
           (fun p c (H : (∅ : gmap string contents) !! p = Some c) =>
              match H in _ = o return match o with Some c' => nonempty c' | None => True end
              with eq_refl => I end)).
Defined.

(** C9: one failing file write aborts the whole stage. In [three_speakers]
    the second speaker's file cannot be created (its name contains a
    directory separator); [generate_voices] then returns the empty map,
    although Alice's file was already written, and Bob's line is never
    provisioned. *)
Theorem generate_voices_one_failure_discards_all :
  let '(audio_files, s) :=
    generate_voices false (fun _ _ _ => None) (fun _ _ => None) Samples.io_ok_guard
      (mk_vstate ∅ 0) ∅ Samples.three_speakers None in
  audio_files = ∅ /\
  vg_fs s !! "audio/Alice_dialogue_1.mp3" = Some (Bytes placeholder_mp3) /\
  vg_fs s !! "audio/Bob_dialogue_3.mp3" = None.
Proof. vm_compute. split_and!; reflexivity. Qed.




End ProvisionProofs.

(** ** Scene compiler: further properties *)
Module CompilerExtraProofs.
Import Str Compiler.
Local Open Scope list_scope.
Local Arguments String.append : simpl nomatch.

Lemma dedup_keep_first_in seen l x :
  x ∈ l -> x ∈ seen \/ x ∈ dedup_keep_first seen l.
Proof.
  revert seen. induction l as [|y l IH]; intros seen Hx; simpl.
  { by apply not_elem_of_nil in Hx. }
  apply elem_of_cons in Hx as [->|Hx].
  - case_decide; [by left | right; apply elem_of_cons; by left].
  - case_decide; [by apply IH|].
    destruct (IH (y :: seen) Hx) as [Hs|Hs].
    + apply elem_of_cons in Hs as [->|Hs]; [right; apply elem_of_cons; by left | by left].
    + right. apply elem_of_cons. by right.
Qed.

Lemma dialogue_characters_in script cs blk c :
  dialogue_characters script = Some cs -> blk ∈ script ->
  is_type "dialogue" blk = true -> b_character blk = Some c -> c ∈ cs.
Proof.
  revert cs. induction script as [|b script IH]; intros cs E Hin Hd Hc.
  { by apply not_elem_of_nil in Hin. }
  simpl in E. apply elem_of_cons in Hin as [->|Hin].
  - rewrite Hd, Hc in E. destruct (dialogue_characters script); simplify_eq.
    apply elem_of_cons. by left.
  - destruct (is_type "dialogue" b).
    + destruct (b_character b), (dialogue_characters script) eqn:E'; simplify_eq.
      apply elem_of_cons. right. by eapply IH.
    + by eapply IH.
Qed.

Lemma body_lines_block uc af shown script blk :
  blk ∈ script ->
  exists shown', forall l, l ∈ (block_lines uc af shown' blk).1 ->
    l ∈ body_lines uc af shown script.
Proof.
  revert shown. induction script as [|b script IH]; intros shown Hin.
  { by apply not_elem_of_nil in Hin. }
  simpl. destruct (block_lines uc af shown b) as [ls shown1] eqn:Eb.
  apply elem_of_cons in Hin as [->|Hin].
  - exists shown. rewrite Eb. intros l Hl. apply elem_of_app. by left.
  - destruct (IH shown1 Hin) as [shown' Hs]. exists shown'. intros l Hl.
    apply elem_of_app. right. by apply Hs.
Qed.

(** The line [out.append(f'    {var} "{text}"\n')] of a dialogue block. *)
Definition dialogue_line (var text : string) : string :=
  "    " +:+ var +:+ " " +:+ dq +:+ text +:+ dq +:+ nl.

(** The line [out.append(f'define {var} = Character("{orig_name}", color="{colour}")')]. *)
Definition define_line (name : string) : string :=
  "define " +:+ char_var name +:+ " = Character(" +:+ dq +:+ name +:+ dq
  +:+ ", color=" +:+ dq +:+ colour_for name +:+ dq +:+ ")".

Lemma block_lines_dialogue uc af shown blk c :
  is_type "dialogue" blk = true -> b_character blk = Some c -> c ∈ uc ->
  dialogue_line (char_var c) (get_or (b_text blk) "") ∈ (block_lines uc af shown blk).1.
Proof.
  intros Hd Hc Hu. unfold is_type in Hd. apply bool_decide_eq_true in Hd.
  unfold block_lines. rewrite Hd, Hc. cbn [get_or].
  rewrite (bool_decide_false ("dialogue" = "environment")) by discriminate.
  rewrite (bool_decide_false ("dialogue" = "movement")) by discriminate.
  rewrite (bool_decide_true ("dialogue" = "dialogue")) by done. cbn [negb].
  unfold var_for. rewrite (bool_decide_true (c ∈ uc)) by done.
  destruct (_ && _); destruct (af !! _); apply list_elem_of_In; simpl;
    repeat first [left; reflexivity | right].
Qed.

Lemma header_define bg uc c :
  c ∈ uc -> define_line c ∈ header_lines bg uc.
Proof.
  intros Hu. unfold header_lines. rewrite !elem_of_app.
  right; right; right; right; right; left.
  apply list_elem_of_In. apply (in_map (fun name => define_line name)).
  by apply list_elem_of_In.
Qed.

(** Every speaker of the compiled script is declared: for each dialogue
    block with character [c], the output holds both the [define] line of
    [c]'s variable and the block's line spoken by that variable. *)
Theorem renpy_dialogue_speakers_defined script audio_files bg out :
  generate_renpy_lines script audio_files bg = Some out ->
  forall blk c, blk ∈ script -> is_type "dialogue" blk = true -> b_character blk = Some c ->
    define_line c ∈ out /\ dialogue_line (char_var c) (get_or (b_text blk) "") ∈ out.
Proof.
  unfold generate_renpy_lines. destruct (dialogue_characters script) as [cs|] eqn:E; [|done].
  intros Hout blk c Hin Hd Hc.
  assert (Ho : out = header_lines bg (dedup_keep_first [] cs)
                     ++ body_lines (dedup_keep_first [] cs) audio_files [] script
                     ++ footer_lines) by congruence.
  subst out. clear Hout.
  assert (Hu : c ∈ dedup_keep_first [] cs).
  { destruct (dedup_keep_first_in [] cs c) as [H|H];
      [eapply dialogue_characters_in; eauto | by apply not_elem_of_nil in H | done]. }
  split; rewrite !elem_of_app.
  - left. by apply header_define.
  - right; left. destruct (body_lines_block (dedup_keep_first [] cs) audio_files [] script blk Hin)
      as [shown' Hs].
    apply Hs. by apply block_lines_dialogue.
Qed.

Lemma renpy_dialogue_speakers_defined_witness :
  exists out, generate_renpy_lines Samples.two_speakers ∅ [] = Some out /\
    define_line "B" ∈ out /\ dialogue_line (char_var "B") "Hello" ∈ out.
Proof.
  eexists. split; [reflexivity|].
  apply (renpy_dialogue_speakers_defined Samples.two_speakers ∅ [] _ eq_refl
           (Samples.line "dialogue_2" "B" "Hello") "B"); [|reflexivity|reflexivity].
  vm_compute. right. right. left.
Defined.

Lemma prefix_app (a b : string) : String.prefix a (a +:+ b) = true.
Proof.
  induction a as [|c a IH]; simpl; [by destruct b|].
  destruct (ascii_dec c c); [done|congruence].
Qed.












(** A character of a sanitised name: [a-z], [0-9] or [_]. *)
Definition ident_char (c : ascii) : bool := is_lower c || is_digit c || Ascii.eqb c "_".

Lemma all_chars_app p (a b : string) :
  all_chars p (a +:+ b) = all_chars p a && all_chars p b.
Proof. induction a as [|c a IH]; simpl; [done|]. rewrite IH. by destruct (p c). Qed.

Lemma all_chars_map_chars p f s :
  (forall c, p (f c) = true) -> all_chars p (map_chars f s) = true.
Proof. intros Hf. induction s as [|c s IH]; simpl; [done|]. by rewrite Hf, IH. Qed.

Lemma split_on_all p sep s :
  all_chars p s = true -> Forall (fun w => all_chars p w = true) (split_on sep s).
Proof.
  induction s as [|c s IH]; simpl; [by repeat constructor|].
  intros [Hc Hs]%andb_prop. specialize (IH Hs).
  destruct (Ascii.eqb c sep); [by constructor|].
  destruct (split_on sep s) as [|w ws]; [by repeat constructor; simpl; rewrite Hc|].
  inversion IH; subst. constructor; [|done]. simpl. by rewrite Hc.
Qed.

Lemma all_chars_concat p sep l :
  all_chars p sep = true -> Forall (fun w => all_chars p w = true) l ->
  all_chars p (String.concat sep l) = true.
Proof.
  intros Hsep. induction 1 as [|w l Hw Hl IH]; simpl; [done|].
  destruct l as [|w' l]; [done|]. by rewrite !all_chars_app, Hw, Hsep, IH.
Qed.

Lemma sanitize_char_ident c :
  ident_char (if is_alnum c then lower_char c else "_"%char) = true.
Proof. destruct c as [[] [] [] [] [] [] [] []]; reflexivity. Qed.

(** [_sanitize_name] returns a valid Ren'Py identifier: for a name of
    ASCII characters the result is non-empty, made of [a-z], [0-9] and [_]
    only, and does not start with a digit. *)
Theorem sanitize_name_identifier (raw : string) :
  all_chars is_ascii raw = true ->
  sanitize_name raw <> "" /\
  all_chars ident_char (sanitize_name raw) = true /\
  (forall c rest, sanitize_name raw = String c rest -> is_digit c = false).
Proof.
  intros _. unfold sanitize_name.
  set (clean1 := map_chars _ raw).
  assert (H1 : all_chars ident_char clean1 = true)
    by (apply all_chars_map_chars; intros c; apply sanitize_char_ident).
  set (clean2 := String.concat "_" _).
  assert (H2 : all_chars ident_char clean2 = true).
  { apply all_chars_concat; [reflexivity|].
    pose proof (split_on_all ident_char "_"%char clean1 H1) as Hs.
    apply Forall_forall. intros w Hw%list_elem_of_filter.
    rewrite Forall_forall in Hs. apply Hs, Hw. }
  destruct clean2 as [|c rest] eqn:E2; simpl.
  - split; [discriminate|]. split; [reflexivity|]. intros c rest [= <- <-]. reflexivity.
  - destruct (is_digit c) eqn:Hd; rewrite bool_decide_false by discriminate.
    + split; [discriminate|]. split; [simpl in H2 |- *; by rewrite H2|].
      intros c' rest' [= <- <-]. reflexivity.
    + split; [discriminate|]. split; [done|]. intros c' rest' [= <- <-]. done.
Qed.

Lemma sanitize_name_identifier_witness :
  sanitize_name "9 Lives" <> "" /\
  all_chars ident_char (sanitize_name "9 Lives") = true /\
  (forall c rest, sanitize_name "9 Lives" = String c rest -> is_digit c = false).
Proof. apply sanitize_name_identifier. reflexivity. Defined.

End CompilerExtraProofs.

(** ** Voice stage: further properties *)
Module VoiceExtraProofs.
Import Str Voice.
Local Open Scope nat_scope.
Local Open Scope list_scope.
Local Arguments truthy : simpl never.

(** The [audio_files] a completed run builds: for each dialogue block with
    non-blank text, in script order, [audio_files[block_id] = audio_path]. *)
Definition voiced_map (project_dir : option string) (script : list block)
    (m : gmap string string) : gmap string string :=
  foldl (fun m blk =>
           if Compiler.is_type "dialogue" blk && negb (is_blank (block_text blk))
           then <[block_id blk := audio_path project_dir blk]> m else m) m script.

Section Rerun.
Variable has_client : bool.
Variable collab : nat -> string -> string -> option string.
Variable synth : string -> string -> option (list byte).
Variable io_ok : string -> bool.
Hypothesis Hio : forall p, io_ok p = true.

Lemma create_mp3_file_ok fs text ch bid dir fname :
  create_mp3_file io_ok fs text ch bid dir fname =
  (Some (path_join dir fname),
   <[metadata_path (path_join dir fname) := Text (metadata_text ch text bid fname)]>
     (<[path_join dir fname := Bytes placeholder_mp3]> fs)).
Proof. unfold create_mp3_file. by rewrite !Hio. Qed.

Lemma process_block_io pd s blk :
  exists s', process_block has_client collab synth io_ok pd s blk = Continue s' /\
    (forall q, is_Some (vg_fs s !! q) -> is_Some (vg_fs s' !! q)) /\
    (Compiler.is_type "dialogue" blk = true -> is_blank (block_text blk) = false ->
     is_Some (vg_fs s' !! audio_path pd blk)) /\
    vg_audio s' =
      (if Compiler.is_type "dialogue" blk && negb (is_blank (block_text blk))
       then <[block_id blk := audio_path pd blk]> (vg_audio s) else vg_audio s).
Proof.
  unfold process_block.
  destruct (Compiler.is_type "dialogue" blk) eqn:Hd; simpl.
  2:{ eexists. split; [reflexivity|]. split_and!; done. }
  destruct (is_blank (block_text blk)) eqn:Hb; simpl.
  { eexists. split; [reflexivity|]. split_and!; done. }
  rewrite Hio. simpl. case_bool_decide as Hex.
  { eexists. split; [reflexivity|]. split_and!; done. }
  destruct (get_or_create_voice _ _ _ _ _ _ _) as [[v voices] session].
  unfold generate_audio.
  destruct (synth _ _) as [bs|]; rewrite ?Hio, ?create_mp3_file_ok; destruct (truthy _);
    (eexists; split; [reflexivity|]); simpl;
    (split_and!; [intros q Hq; rewrite ?lookup_insert_is_Some'; by auto
                 | intros _ _; rewrite ?lookup_insert_is_Some'; by auto
                 | done]).
Qed.

Lemma voices_loop_io pd script s :
  exists s', voices_loop has_client collab synth io_ok pd s script = Continue s' /\
    (forall blk, blk ∈ script -> Compiler.is_type "dialogue" blk = true ->
     is_blank (block_text blk) = false -> is_Some (vg_fs s' !! audio_path pd blk)) /\
    vg_audio s' = voiced_map pd script (vg_audio s).
Proof.
  cut (exists s', voices_loop has_client collab synth io_ok pd s script = Continue s' /\
    (forall q, is_Some (vg_fs s !! q) -> is_Some (vg_fs s' !! q)) /\
    (forall blk, blk ∈ script -> Compiler.is_type "dialogue" blk = true ->
     is_blank (block_text blk) = false -> is_Some (vg_fs s' !! audio_path pd blk)) /\
    vg_audio s' = voiced_map pd script (vg_audio s)).
  { intros (s' & ? & _ & ? & ?). by exists s'. }
  revert s. induction script as [|blk script IH]; intros s; simpl.
  { exists s. split_and!; [done|done| |done]. intros blk Hin. by apply not_elem_of_nil in Hin. }
  destruct (process_block_io pd s blk) as (s1 & -> & Hm1 & Hb1 & Ha1).
  destruct (IH s1) as (s2 & -> & Hm2 & Hall & Ha2).
  exists s2. split_and!; [done| | |].
  - intros q Hq. by apply Hm2, Hm1.
  - intros b Hin Hd Hb. apply elem_of_cons in Hin as [->|Hin]; [|by apply Hall].
    by apply Hm2, Hb1.
  - rewrite Ha2, Ha1. unfold voiced_map. simpl. done.
Qed.

Lemma process_block_present pd s blk :
  (Compiler.is_type "dialogue" blk = true -> is_blank (block_text blk) = false ->
   is_Some (vg_fs s !! audio_path pd blk)) ->
  process_block has_client collab synth io_ok pd s blk =
  Continue (mk_vg (if Compiler.is_type "dialogue" blk && negb (is_blank (block_text blk))
                   then <[block_id blk := audio_path pd blk]> (vg_audio s) else vg_audio s)
                  (vg_fs s) (vg_voices s) (vg_session s)).
Proof.
  intros Hp. unfold process_block.
  destruct (Compiler.is_type "dialogue" blk) eqn:Hd; simpl; [|by destruct s].
  destruct (is_blank (block_text blk)) eqn:Hb; simpl; [by destruct s|].
  rewrite Hio. simpl. rewrite bool_decide_true; [done|]. by apply Hp.
Qed.

Lemma voices_loop_present pd script s :
  (forall blk, blk ∈ script -> Compiler.is_type "dialogue" blk = true ->
   is_blank (block_text blk) = false -> is_Some (vg_fs s !! audio_path pd blk)) ->
  voices_loop has_client collab synth io_ok pd s script =
  Continue (mk_vg (voiced_map pd script (vg_audio s)) (vg_fs s) (vg_voices s) (vg_session s)).
Proof.
  revert s. induction script as [|blk script IH]; intros s Hall; simpl; [by destruct s|].
  rewrite process_block_present by (apply Hall; by apply elem_of_cons; left).
  rewrite IH; [done|]. intros b Hin. simpl. apply Hall. by apply elem_of_cons; right.
Qed.

End Rerun.

(** Running the voice stage a second time over the same script, on the files
    and caches the first run left, is a no-op when file I/O succeeds: it
    writes no file, sends no creation request, leaves the voice cache as it
    is, and returns the same [audio_files]. *)
Theorem generate_voices_rerun_noop has_client collab synth io_ok
    (st : vstate) (fs : gmap string contents) (script : list block)
    (project_dir : option string) :
  (forall p, io_ok p = true) ->
  let '(audio_files1, s1) :=
    generate_voices has_client collab synth io_ok st fs script project_dir in
  let '(audio_files2, s2) :=
    generate_voices has_client collab synth io_ok (vg_voices s1) (vg_fs s1) script project_dir in
  audio_files2 = audio_files1 /\ vg_fs s2 = vg_fs s1 /\ vg_voices s2 = vg_voices s1.
Proof.
  intros Hio. unfold generate_voices.
  destruct (voices_loop_io has_client collab synth io_ok Hio project_dir script
              (mk_vg ∅ fs st ∅)) as (s1 & -> & Hall & Ha1).
  rewrite (voices_loop_present has_client collab synth io_ok Hio project_dir script
             (mk_vg ∅ (vg_fs s1) (vg_voices s1) ∅)) by done.
  simpl. by rewrite Ha1.
Qed.

Lemma generate_voices_rerun_noop_witness :
  let '(audio_files1, s1) :=
    generate_voices true (fun _ _ _ => Some "voice_1") (fun _ _ => Some [x01])
      (fun _ => true) (mk_vstate ∅ 0) ∅ Samples.three_speakers None in
  let '(audio_files2, s2) :=
    generate_voices true (fun _ _ _ => Some "voice_1") (fun _ _ => Some [x01])
      (fun _ => true) (vg_voices s1) (vg_fs s1) Samples.three_speakers None in
  audio_files2 = audio_files1 /\ vg_fs s2 = vg_fs s1 /\ vg_voices s2 = vg_voices s1.
Proof.
  exact (generate_voices_rerun_noop true (fun _ _ _ => Some "voice_1") (fun _ _ => Some [x01])
           (fun _ => true) (mk_vstate ∅ 0) ∅ Samples.three_speakers None (fun _ => eq_refl)).
Defined.

(** With a client and voice-creation requests that succeed, two different
    characters with the same traits and emotion share one voice, provided
    their traits carry no [elevenlabs_voice_id] and neither character is in
    the session map or cached under its own name: the voice created for the
    first one is cached under its description, and resolving the second one
    returns that voice without a creation request. *)
Theorem same_description_shares_voice collab (st : vstate) (c1 c2 : string)
    (t : traits) (emotion : string) (session : gmap string string) :
  (forall k d nm, truthy (collab k d nm) = true) ->
  c1 <> c2 -> session !! c1 = None -> session !! c2 = None ->
  voice_cache st !! c1 = None -> voice_cache st !! c2 = None ->
  truthy (elevenlabs_voice_id t) = false ->
  let '(v1, st1, session1) := get_or_create_voice true collab st c1 t emotion session in
  let '(v2, st2, _) := get_or_create_voice true collab st1 c2 t emotion session1 in
  v2 = v1 /\ create_requests st2 = create_requests st1.
Proof.
  intros Hcol Hne Hs1 Hs2 Hc1 Hc2 Hel.
  unfold get_or_create_voice. rewrite Hs1, Hel, Hc1. cbn [negb].
  unfold create_voice_from_description.
  destruct (voice_cache st !! build_voice_description t emotion) as [w|] eqn:Ed.
  - destruct (truthy (Some w)) eqn:Hw; simpl.
    + rewrite lookup_insert_ne, Hs2 by done.
      rewrite lookup_insert_ne, Hc2 by done. simpl.
      destruct (decide (c1 = build_voice_description t emotion)) as [<-|Hd].
      * rewrite lookup_insert_eq. simpl. rewrite Hw. done.
      * rewrite lookup_insert_ne, Ed by done. simpl. rewrite Hw. done.
    + rewrite Hs2, Hc2. simpl. rewrite Ed. simpl. rewrite Hw. done.
  - pose proof (Hcol (create_requests st) (build_voice_description t emotion) c1) as Hk.
    destruct (collab _ _ c1) as [w|] eqn:Ew; [|discriminate]. simpl.
    rewrite Hk. simpl.
    rewrite lookup_insert_ne, Hs2 by done.
    rewrite lookup_insert_ne by done.
    destruct (decide (build_voice_description t emotion = c2)) as [<-|Hd].
    + rewrite lookup_insert_eq. done.
    + rewrite lookup_insert_ne, Hc2 by done. simpl.
      destruct (decide (c1 = build_voice_description t emotion)) as [<-|Hd'].
      * rewrite lookup_insert_eq. simpl. rewrite Hk. done.
      * rewrite lookup_insert_ne, lookup_insert_eq by done. simpl. rewrite Hk. done.
Qed.

Lemma same_description_shares_voice_witness :
  let '(v1, st1, session1) :=
    get_or_create_voice true (fun _ _ _ => Some "voice_1") (mk_vstate ∅ 0) "Alice"
      no_traits "neutral" ∅ in
  let '(v2, st2, _) :=
    get_or_create_voice true (fun _ _ _ => Some "voice_1") st1 "Bob"
      no_traits "neutral" session1 in
  v2 = v1 /\ create_requests st2 = create_requests st1.
Proof.
  exact (same_description_shares_voice (fun _ _ _ => Some "voice_1") (mk_vstate ∅ 0)
           "Alice" "Bob" no_traits "neutral" ∅ (fun _ _ _ => eq_refl)
           ltac:(discriminate) eq_refl eq_refl eq_refl eq_refl eq_refl).
Defined.

(** With a client, when the block's traits carry no [elevenlabs_voice_id],
    the audio directory can be created, and a non-empty voice is cached under
    the block's voice description (a key other than the character's name),
    [regenerate_voice] does not give the character a new voice: it drops the
    cache entry under the character's name, finds the voice again under the
    description, sends no creation request and maps the character back to
    that same voice. *)
Theorem regenerate_voice_keeps_description_voice collab synth io_ok
    (st : vstate) (fs : gmap string contents) (bid : string) (blk : block)
    (project_dir : option string) (v : string) :
  voice_cache st !! build_voice_description (b_traits blk) (block_emotion blk) = Some v ->
  v <> "" ->
  build_voice_description (b_traits blk) (block_emotion blk) <> block_character blk ->
  truthy (elevenlabs_voice_id (b_traits blk)) = false ->
  io_ok (audio_dir_of project_dir) = true ->
  let '(_, st', _) := regenerate_voice true collab synth io_ok st fs bid blk project_dir in
  create_requests st' = create_requests st /\ voice_cache st' !! block_character blk = Some v.
Proof.
  intros Hd Hv Hne Hel Hio. unfold regenerate_voice. rewrite Hio. cbn [negb].
  unfold get_or_create_voice. rewrite lookup_empty, Hel. simpl.
  rewrite lookup_delete_eq. simpl.
  unfold create_voice_from_description. simpl.
  rewrite lookup_delete_ne, Hd by congruence. simpl.
  assert (Ht : truthy (Some v) = true).
  { unfold truthy. by rewrite bool_decide_false. }
  rewrite Ht. simpl. rewrite Ht.
  destruct (generate_audio _ _ _ _ _ _) as [[p|] fs'];
    [|destruct (create_mp3_file _ _ _ _ _ _ _)]; simpl; by rewrite lookup_insert_eq.
Qed.

Lemma regenerate_voice_keeps_description_voice_witness :
  let blk := Samples.line "dialogue_1" "Alice" "We should go." in
  let '(_, st', _) :=
    regenerate_voice true (fun _ _ _ => None) (fun _ _ => None) (fun _ => true)
      (mk_vstate (<["A adult, neutral, clear voice." := "voice_1"]>
                    (<["Alice" := "voice_1"]> ∅)) 1) ∅ "dialogue_1" blk None in
  create_requests st' = 1 /\ voice_cache st' !! "Alice" = Some "voice_1".
Proof.
  exact (regenerate_voice_keeps_description_voice (fun _ _ _ => None) (fun _ _ => None)
           (fun _ => true)
           (mk_vstate (<["A adult, neutral, clear voice." := "voice_1"]>
                         (<["Alice" := "voice_1"]> ∅)) 1) ∅ "dialogue_1"
           (Samples.line "dialogue_1" "Alice" "We should go.") None "voice_1"
           eq_refl ltac:(discriminate) ltac:(discriminate) eq_refl eq_refl).
Defined.

Lemma get_or_create_voice_no_client collab st c t emotion session :
  (get_or_create_voice false collab st c t emotion session).1.2 = st.
Proof. unfold get_or_create_voice. by repeat case_match. Qed.

Lemma process_block_no_client collab synth io_ok pd s blk :
  match process_block false collab synth io_ok pd s blk with
  | Continue s' | Raised s' => vg_voices s' = vg_voices s
  end.
Proof.
  unfold process_block.
  destruct (Compiler.is_type "dialogue" blk); simpl; [|done].
  destruct (is_blank _); simpl; [done|].
  destruct (io_ok _); simpl; [|done].
  case_bool_decide; [done|].
  pose proof (get_or_create_voice_no_client collab (vg_voices s) (block_character blk)
                (b_traits blk) (block_emotion blk) (vg_session s)) as Hg.
  destruct (get_or_create_voice _ _ _ _ _ _ _) as [[v voices] session]. simpl in Hg. subst.
  repeat case_match; simplify_eq/=; try done.
Qed.

(** Without a voice-service client the voice stage never touches the voice
    service: the generator's voice cache and its count of creation requests
    are the same after [generate_voices] as before, whatever the script and
    whether or not the run raised. *)
Theorem generate_voices_no_client_state collab synth io_ok
    (st : vstate) (fs : gmap string contents) (script : list block)
    (project_dir : option string) :
  vg_voices (generate_voices false collab synth io_ok st fs script project_dir).2 = st.
Proof.
  unfold generate_voices.
  cut (forall s, match voices_loop false collab synth io_ok project_dir s script with
                 | Continue s' | Raised s' => vg_voices s' = vg_voices s end).
  { intros H. specialize (H (mk_vg ∅ fs st ∅)). by destruct (voices_loop _ _ _ _ _ _ _). }
  induction script as [|blk script IH]; intros s; simpl; [done|].
  pose proof (process_block_no_client collab synth io_ok project_dir s blk) as Hb.
  destruct (process_block _ _ _ _ _ _ _) as [s1|s1]; [|done].
  specialize (IH s1). destruct (voices_loop _ _ _ _ _ _ _); congruence.
Qed.

End VoiceExtraProofs.

(** ** HTML preview player: further properties *)
Module PlayerExtraProofs.
Import Player.
Local Open Scope nat_scope.

Section Calm.
Variable n : nat.

(** At most the one timer held in [sceneTimer] is pending, and only while
    playing a block that exists; the current block never passes the end. *)
Definition single_timer (st : pstate) : Prop :=
  current_block st <= n /\
  ((pending st = [] /\ scene_timer st = None) \/
   (exists t, pending st = [t] /\ scene_timer st = Some t /\ is_playing st = true /\
              current_block st < n)).

Lemma single_timer_initial : single_timer (initial n).
Proof.
  unfold initial, single_timer. destruct (Nat.ltb 0 n); simpl; split; [lia| by left | lia | by left].
Qed.

Lemma clear_timeout_self t : clear_timeout t [t] = [].
Proof. unfold clear_timeout. simpl. rewrite filter_cons_False; [done|]. rewrite Nat.eqb_refl. simpl. tauto. Qed.

Lemma single_timer_step st e :
  single_timer st ->
  match e with Start | Next => is_playing st = false | _ => True end ->
  single_timer (step n st e).
Proof.
  unfold single_timer.
  intros [Hc [[Hp Ht] | (t & Hp & Ht & Hpl & Hlt)]] Hg;
    destruct st as [cur playing timer pend nt]; simpl in *; subst.
  - destruct e as [| | | |t]; simpl.
    + unfold start_scene, play_current_block, pause_scene. simpl.
      destruct (Nat.leb n cur) eqn:E; simpl; (split; [lia|]); [by left|].
      right. exists nt. split_and!; try done. by apply Nat.leb_gt in E.
    + split; [done|]. by left.
    + split; [lia|]. by left.
    + unfold next_block. simpl. destruct (Nat.ltb cur (n - 1)) eqn:E; simpl.
      * apply Nat.ltb_lt in E. unfold play_current_block. simpl.
        destruct (Nat.leb n (S cur)) eqn:E2; [apply Nat.leb_le in E2; lia|]. simpl.
        rewrite Hg; simpl. split; [lia | by left].
      * split; [done | by left].
    + unfold fire. simpl. try rewrite bool_decide_false by (by intros ?%elem_of_nil); simpl.
      split; [done | by left].
  - destruct e as [| | | |t']; simpl; try discriminate.
    + unfold pause_scene. simpl. rewrite clear_timeout_self. split; [done | by left].
    + unfold reset_scene, pause_scene. simpl. rewrite clear_timeout_self. split; [lia | by left].
    + unfold fire. simpl. case_bool_decide as Hin; simpl; [|split; [done | right; by exists t]].
      apply list_elem_of_singleton in Hin as ->. rewrite clear_timeout_self.
      unfold play_current_block. simpl.
      destruct (Nat.leb n (S cur)) eqn:E; simpl.
      * unfold pause_scene. simpl. split; [lia | by left].
      * apply Nat.leb_gt in E. split; [lia|]. right. eexists. split_and!; done.
Qed.

Lemma single_timer_run st es :
  single_timer st -> calm n st es = true -> single_timer (run n st es).
Proof.
  revert st. induction es as [|e es IH]; intros st Hs Hc; simpl; [done|].
  apply andb_prop in Hc as [Hg Hc]. apply IH; [|done].
  apply single_timer_step; [done|].
  destruct e; try done; by apply negb_true_iff in Hg.
Qed.

End Calm.

(** When Play and Next are only clicked while the scene is paused, the
    preview never holds more than one pending auto-advance timer and never
    advances past its last block. *)
Theorem player_calm_single_timer (n : nat) (es : list event) :
  calm n (initial n) es = true ->
  length (pending (run n (initial n) es)) <= 1 /\ current_block (run n (initial n) es) <= n.
Proof.
  intros Hc. destruct (single_timer_run n (initial n) es (single_timer_initial n) Hc)
    as [Hcur [[-> _] | (t & -> & _)]]; simpl; split; lia.
Qed.

Lemma player_calm_single_timer_witness :
  length (pending (run 3 (initial 3) [Start; Fire 1; Pause; Next; Start; Fire 2])) <= 1 /\
  current_block (run 3 (initial 3) [Start; Fire 1; Pause; Next; Start; Fire 2]) <= 3.
Proof. apply player_calm_single_timer. reflexivity. Defined.

End PlayerExtraProofs.

(** ** Project folder and project names: properties *)
Module NamingProofs.
Import Str App Render.
Local Arguments String.append : simpl nomatch.

Lemma str_length_app (a b : string) :
  String.length (a +:+ b) = String.length a + String.length b.
Proof. induction a as [|c a IH]; simpl; [done|]. by rewrite IH. Qed.

Lemma all_chars_impl (p q : ascii -> bool) s :
  (forall c, p c = true -> q c = true) -> all_chars p s = true -> all_chars q s = true.
Proof.
  intros Hpq. induction s as [|c s IH]; simpl; [done|].
  intros [Hc Hs]%andb_prop. by rewrite Hpq, IH.
Qed.

Lemma filter_chars_all p s : all_chars p (filter_chars p s) = true.
Proof. induction s as [|c s IH]; simpl; [done|]. destruct (p c) eqn:E; simpl; by rewrite ?E. Qed.

Lemma filter_chars_id p s : all_chars p s = true -> filter_chars p s = s.
Proof.
  induction s as [|c s IH]; simpl; [done|]. intros [-> Hs]%andb_prop. by rewrite IH.
Qed.

Lemma filter_chars_length p s : String.length (filter_chars p s) <= String.length s.
Proof. induction s as [|c s IH]; simpl; [lia|]. destruct (p c); simpl; lia. Qed.

Lemma filter_chars_empty p s :
  filter_chars p s = "" <-> all_chars (fun c => negb (p c)) s = true.
Proof.
  induction s as [|c s IH]; simpl; [done|].
  destruct (p c); simpl; [done|]. apply IH.
Qed.

Lemma substring_all p k s : all_chars p s = true -> all_chars p (String.substring 0 k s) = true.
Proof.
  revert k. induction s as [|c s IH]; intros [|k]; simpl; try done.
  intros [-> Hs]%andb_prop. by apply IH.
Qed.

Lemma substring_length k s : String.length (String.substring 0 k s) <= k.
Proof. revert k. induction s as [|c s IH]; intros [|k]; simpl; try lia. specialize (IH k). lia. Qed.

Lemma substring_id k s : String.length s <= k -> String.substring 0 k s = s.
Proof.
  revert k. induction s as [|c s IH]; intros [|k]; simpl; try done; [lia|].
  intros Hk. rewrite IH; [done | lia].
Qed.

Lemma substring_empty k s : String.substring 0 (S k) s = "" <-> s = "".
Proof. destruct s; simpl; done. Qed.

Lemma lstrip_all q s : all_chars q s = true -> all_chars q (lstrip_ws s) = true.
Proof.
  induction s as [|c s IH]; simpl; [done|]. intros Hs.
  destruct (is_space c); [|done]. apply IH. by apply andb_prop in Hs as [_ Hs].
Qed.

Lemma lstrip_length s : String.length (lstrip_ws s) <= String.length s.
Proof. induction s as [|c s IH]; simpl; [lia|]. destruct (is_space c); simpl; lia. Qed.

Lemma rstrip_all q s : all_chars q s = true -> all_chars q (rstrip_ws s) = true.
Proof.
  induction s as [|c s IH]; simpl; [done|]. intros [Hc Hs]%andb_prop.
  destruct (_ && _); simpl; [done|]. by rewrite Hc, IH.
Qed.

Lemma rstrip_length s : String.length (rstrip_ws s) <= String.length s.
Proof. induction s as [|c s IH]; simpl; [lia|]. destruct (_ && _); simpl; lia. Qed.

Lemma collapse_runs_word b s :
  all_chars (fun c => is_word c || is_space c || Ascii.eqb c "-") s = true ->
  all_chars is_word (collapse_runs b s) = true.
Proof.
  revert b. induction s as [|c s IH]; intros b; simpl; [done|].
  intros [Hc Hs]%andb_prop.
  destruct (is_space c || Ascii.eqb c "-") eqn:Hsd.
  - destruct b; simpl; [by apply IH|]. by rewrite IH.
  - rewrite <- orb_assoc, Hsd, orb_false_r in Hc. simpl. by rewrite Hc, IH.
Qed.

Lemma collapse_runs_length b s : String.length (collapse_runs b s) <= String.length s.
Proof.
  revert b. induction s as [|c s IH]; intros b; simpl; [lia|].
  pose proof (IH true). pose proof (IH false).
  destruct (_ || _); [destruct b; simpl|simpl]; lia.
Qed.

Lemma word_not_space c : is_word c = true -> is_space c = false /\ Ascii.eqb c "-" = false.
Proof. destruct c as [[] [] [] [] [] [] [] []]; vm_compute; done. Qed.

Lemma lstrip_id s : all_chars is_word s = true -> lstrip_ws s = s.
Proof.
  destruct s as [|c s]; simpl; [done|]. intros [Hc _]%andb_prop.
  by rewrite (proj1 (word_not_space c Hc)).
Qed.

Lemma rstrip_id s : all_chars is_word s = true -> rstrip_ws s = s.
Proof.
  induction s as [|c s IH]; simpl; [done|]. intros [Hc Hs]%andb_prop.
  by rewrite (proj1 (word_not_space c Hc)), IH.
Qed.

Lemma collapse_runs_id b s : all_chars is_word s = true -> collapse_runs b s = s.
Proof.
  revert b. induction s as [|c s IH]; intros b; simpl; [done|]. intros [Hc Hs]%andb_prop.
  destruct (word_not_space c Hc) as [-> ->]. simpl. by rewrite IH.
Qed.

Lemma is_word_lower c : is_word (lower_char c) = is_word c.
Proof. destruct c as [[] [] [] [] [] [] [] []]; reflexivity. Qed.

Lemma word_lower_ident c :
  is_word (lower_char c) = true -> CompilerExtraProofs.ident_char (lower_char c) = true.
Proof. destruct c as [[] [] [] [] [] [] [] []]; vm_compute; done. Qed.

Lemma filter_lower_ident s :
  all_chars CompilerExtraProofs.ident_char (filter_chars is_word (lower s)) = true.
Proof.
  unfold lower. induction s as [|c s IH]; simpl; [done|].
  destruct (is_word (lower_char c)) eqn:E; simpl; [|done].
  by rewrite word_lower_ident, IH.
Qed.

Lemma all_not_word_lower s :
  all_chars (fun c => negb (is_word c)) (lower s) = all_chars (fun c => negb (is_word c)) s.
Proof. unfold lower. induction s as [|c s IH]; simpl; [done|]. by rewrite is_word_lower, IH. Qed.

(** The folder name made by [generate_folder_name] for an ASCII prompt
    consists of [\w] characters only ([A-Z], [a-z], [0-9], [_]): no [/],
    [.] or whitespace, so [os.path.join(results_dir, folder_name)] names a
    direct child of [results]. Its cleaned prompt part is at most 50
    characters long. This holds when the timestamp and the unique id are
    themselves made of [\w] characters, as [%Y%m%d_%H%M%S] and eight
    hexadecimal digits of a UUID are. *)
Theorem folder_name_word_chars (prompt timestamp unique_id : string) :
  all_chars is_ascii prompt = true ->
  all_chars is_word timestamp = true -> all_chars is_word unique_id = true ->
  all_chars is_word (generate_folder_name prompt timestamp unique_id) = true /\
  String.length (generate_folder_name prompt timestamp unique_id)
    <= 52 + String.length timestamp + String.length unique_id.
Proof.
  intros _ Hts Huid. unfold generate_folder_name. split.
  - rewrite !CompilerExtraProofs.all_chars_app, Hts, Huid. simpl.
    rewrite collapse_runs_word; [done|].
    unfold strip_ws. apply rstrip_all, lstrip_all, filter_chars_all.
  - rewrite !str_length_app. simpl.
    pose proof (collapse_runs_length false
      (strip_ws (filter_chars (fun c => is_word c || is_space c || Ascii.eqb c "-")
         (String.substring 0 50 prompt)))).
    unfold strip_ws in *.
    pose proof (rstrip_length (lstrip_ws (filter_chars (fun c => is_word c || is_space c || Ascii.eqb c "-")
         (String.substring 0 50 prompt)))).
    pose proof (lstrip_length (filter_chars (fun c => is_word c || is_space c || Ascii.eqb c "-")
         (String.substring 0 50 prompt))).
    pose proof (filter_chars_length (fun c => is_word c || is_space c || Ascii.eqb c "-")
         (String.substring 0 50 prompt)).
    pose proof (substring_length 50 prompt). lia.
Qed.

Lemma folder_name_word_chars_witness :
  all_chars is_word (generate_folder_name "A rainy night -- on Mars!" "20250101_120000" "1a2b3c4d") = true /\
  String.length (generate_folder_name "A rainy night -- on Mars!" "20250101_120000" "1a2b3c4d") <= 52 + 15 + 8.
Proof. apply folder_name_word_chars; vm_compute; reflexivity. Defined.

(** A prompt that is already a clean name (at most 50 characters, each an
    ASCII letter, an ASCII digit or [_]) is kept unchanged: the folder name is the prompt followed by [_], the
    timestamp, [_] and the unique id. *)
Theorem folder_name_keeps_clean_prompt (prompt timestamp unique_id : string) :
  all_chars is_word prompt = true -> String.length prompt <= 50 ->
  generate_folder_name prompt timestamp unique_id
  = prompt +:+ "_" +:+ timestamp +:+ "_" +:+ unique_id.
Proof.
  intros Hw Hl. unfold generate_folder_name, strip_ws.
  rewrite substring_id by done.
  rewrite filter_chars_id.
  2:{ apply (all_chars_impl is_word); [|done]. intros c ->. done. }
  by rewrite lstrip_id, rstrip_id, collapse_runs_id.
Qed.

Lemma folder_name_keeps_clean_prompt_witness :
  generate_folder_name "rainy_night_2" "20250101_120000" "1a2b3c4d"
  = "rainy_night_2" +:+ "_" +:+ "20250101_120000" +:+ "_" +:+ "1a2b3c4d".
Proof. apply folder_name_keeps_clean_prompt; vm_compute; [reflexivity | lia]. Defined.

(** For blocks whose texts are ASCII, the project name made by
    [_generate_project_name] is at most 20 characters long and consists
    of lower-case letters, digits and [_] only. *)
Theorem project_name_shape (blocks : list block) :
  Forall (fun b => all_chars is_ascii (get_or (b_text b) "") = true) blocks ->
  String.length (generate_project_name blocks) <= 20 /\
  all_chars CompilerExtraProofs.ident_char (generate_project_name blocks) = true.
Proof.
  intros _. unfold generate_project_name.
  destruct (project_text_parts blocks) as [|w rest]; [split; [simpl; lia | done]|].
  split; [apply substring_length|]. apply substring_all, filter_lower_ident.
Qed.

Lemma project_name_shape_witness :
  String.length (generate_project_name [Samples.line "d1" "A" "Hello THERE, my old friend!"]) <= 20 /\
  all_chars CompilerExtraProofs.ident_char
    (generate_project_name [Samples.line "d1" "A" "Hello THERE, my old friend!"]) = true.
Proof. apply project_name_shape. repeat constructor. Defined.

(** For blocks whose texts are ASCII, [_generate_project_name] returns the
    empty name exactly when the first three blocks yield a single word in
    all and that word has no letter, digit or [_]: two or more words are
    joined by [_], which survives the cleaning. *)
Theorem project_name_empty_iff (blocks : list block) :
  Forall (fun b => all_chars is_ascii (get_or (b_text b) "") = true) blocks ->
  generate_project_name blocks = "" <->
  exists w, project_text_parts blocks = [w] /\ all_chars (fun c => negb (is_word c)) w = true.
Proof.
  intros _. unfold generate_project_name.
  destruct (project_text_parts blocks) as [|w rest].
  - split; [done|]. by intros (w & ? & _).
  - rewrite substring_empty, filter_chars_empty, all_not_word_lower.
    destruct rest as [|w2 rest].
    + simpl. split; [intros H; by exists w | by intros (w' & [= ->] & ?)].
    + change (String.concat "_" (w :: w2 :: rest))
        with (w +:+ "_" +:+ String.concat "_" (w2 :: rest)).
      rewrite !CompilerExtraProofs.all_chars_app. simpl.
      rewrite andb_false_r. split; [done|]. by intros (w' & ? & _).
Qed.

Lemma project_name_empty_iff_witness :
  generate_project_name [Samples.line "d1" "A" "..."] = "" <->
  exists w, project_text_parts [Samples.line "d1" "A" "..."] = [w] /\
            all_chars (fun c => negb (is_word c)) w = true.
Proof. apply project_name_empty_iff. repeat constructor. Defined.

End NamingProofs.

(** ** [_sanitize_name]: idempotence *)
Module SanitizeProofs.
Import Str Compiler.
Local Arguments String.append : simpl nomatch.

Definition no_sep (sep : ascii) (w : string) : bool :=
  all_chars (fun c => negb (Ascii.eqb c sep)) w.

Lemma split_on_pieces sep s : Forall (fun w => no_sep sep w = true) (split_on sep s).
Proof.
  unfold no_sep. induction s as [|c s IH]; simpl; [by repeat constructor|].
  destruct (Ascii.eqb c sep) eqn:E; [by constructor|].
  destruct (split_on sep s) as [|w ws]; [by repeat constructor; simpl; rewrite E|].
  inversion IH; subst. constructor; [|done]. simpl. by rewrite E.
Qed.

Lemma split_on_no_sep sep w : no_sep sep w = true -> split_on sep w = [w].
Proof.
  unfold no_sep. induction w as [|c w IH]; simpl; [done|].
  intros [Hc Hw]%andb_prop. apply negb_true_iff in Hc. by rewrite Hc, IH.
Qed.

Lemma split_on_app sep w rest :
  no_sep sep w = true -> split_on sep (w +:+ String sep rest) = w :: split_on sep rest.
Proof.
  unfold no_sep. induction w as [|c w IH]; simpl.
  - by rewrite Ascii.eqb_refl.
  - intros [Hc Hw]%andb_prop. apply negb_true_iff in Hc. by rewrite Hc, IH.
Qed.

Lemma split_on_sep_cons sep s : split_on sep (String sep s) = "" :: split_on sep s.
Proof. simpl. by rewrite Ascii.eqb_refl. Qed.

Lemma split_on_concat sep ws :
  Forall (fun w => no_sep sep w = true) ws -> ws <> [] ->
  split_on sep (String.concat (String sep "") ws) = ws.
Proof.
  induction 1 as [|w ws Hw Hws IH]; [done|]. intros _.
  destruct ws as [|w2 ws]; [by apply split_on_no_sep|].
  change (String.concat (String sep "") (w :: w2 :: ws))
    with (w +:+ String sep (String.concat (String sep "") (w2 :: ws))).
  rewrite split_on_app by done. by rewrite IH.
Qed.

Lemma filter_nonempty_id (ws : list string) :
  Forall (fun w => w <> "") ws ->
  filter (fun w => negb (bool_decide (w = ""))) ws = ws.
Proof.
  induction 1 as [|w ws Hw Hws IH]; [done|].
  rewrite filter_cons_True; [by rewrite IH|]. by rewrite bool_decide_false.
Qed.

Lemma filter_nonempty_cons_empty (ws : list string) :
  filter (fun w => negb (bool_decide (w = ""))) ("" :: ws)
  = filter (fun w => negb (bool_decide (w = ""))) ws.
Proof. rewrite filter_cons_False; [done|]. rewrite bool_decide_true by done. simpl. tauto. Qed.

Lemma sanitize_char_id c :
  CompilerExtraProofs.ident_char c = true -> (if is_alnum c then lower_char c else "_"%char) = c.
Proof. destruct c as [[] [] [] [] [] [] [] []]; vm_compute; done. Qed.

Lemma sanitize_map_id s :
  all_chars CompilerExtraProofs.ident_char s = true ->
  map_chars (fun ch => if is_alnum ch then lower_char ch else "_"%char) s = s.
Proof.
  induction s as [|c s IH]; simpl; [done|]. intros [Hc Hs]%andb_prop.
  by rewrite sanitize_char_id, IH.
Qed.

(** [_sanitize_name] is idempotent on ASCII names: a name it has already
    sanitized comes back unchanged, so [char_{...}] variables built from
    sanitized names and from the raw names agree. *)
Theorem sanitize_name_idempotent (raw : string) :
  all_chars is_ascii raw = true ->
  sanitize_name (sanitize_name raw) = sanitize_name raw.
Proof.
  intros _. unfold sanitize_name at 2 3.
  set (clean1 := map_chars _ raw).
  assert (H1 : all_chars CompilerExtraProofs.ident_char clean1 = true)
    by (apply CompilerExtraProofs.all_chars_map_chars; intros c;
        apply CompilerExtraProofs.sanitize_char_ident).
  set (ws := filter _ (split_on "_"%char clean1)).
  assert (Hne : Forall (fun w => w <> "") ws).
  { apply Forall_forall. intros w Hw%list_elem_of_filter. destruct Hw as [Hw _].
    intros ->. rewrite bool_decide_true in Hw by done. exact Hw. }
  assert (Hsep : Forall (fun w => no_sep "_" w = true) ws).
  { pose proof (split_on_pieces "_" clean1) as Hs. rewrite Forall_forall in Hs |- *.
    intros w Hw%list_elem_of_filter. apply Hs, Hw. }
  assert (Hid : Forall (fun w => all_chars CompilerExtraProofs.ident_char w = true) ws).
  { pose proof (CompilerExtraProofs.split_on_all _ "_"%char clean1 H1) as Hs.
    rewrite Forall_forall in Hs |- *. intros w Hw%list_elem_of_filter. apply Hs, Hw. }
  assert (H2 : all_chars CompilerExtraProofs.ident_char (String.concat "_" ws) = true)
    by (apply CompilerExtraProofs.all_chars_concat; [reflexivity | done]).
  destruct (String.concat "_" ws) as [|c rest] eqn:E2; simpl.
  - reflexivity.
  - assert (Hws : ws <> []) by (intros ->; discriminate).
    assert (Hsplit : split_on "_"%char (String c rest) = ws)
      by (rewrite <- E2; by apply split_on_concat).
    destruct (is_digit c) eqn:Hd; rewrite bool_decide_false by discriminate;
      unfold sanitize_name.
    + rewrite sanitize_map_id by (simpl in H2 |- *; by rewrite H2).
      rewrite split_on_sep_cons, Hsplit, filter_nonempty_cons_empty, filter_nonempty_id, E2 by done.
      simpl. rewrite Hd. by rewrite bool_decide_false by discriminate.
    + rewrite sanitize_map_id by done.
      rewrite Hsplit, filter_nonempty_id, E2 by done. simpl. rewrite Hd.
      by rewrite bool_decide_false by discriminate.
Qed.

Lemma sanitize_name_idempotent_witness :
  sanitize_name (sanitize_name "9 Lives, Inc.") = sanitize_name "9 Lives, Inc.".
Proof. apply sanitize_name_idempotent. reflexivity. Defined.

End SanitizeProofs.
